(** * ZamaFHEVM analytics pipeline: the event codec, the event store, the
    collection and metrics routes, the live subscription broker and the
    browser batching agent, embedded from

      - server/fhe.ts        (module [Fhe])
      - server/storage.ts    (module [Storage])
      - server/routes.ts     (module [Routes])
      - public/fhe-analytics.js (module [Client])

    JavaScript numbers are IEEE-754 binary64 values: they are the kernel's
    primitive floats, so [+], [/], overflow to [infinity] and [nan] are the
    machine's.  Values of type [any] are [JS.value]; exceptions are explicit
    ([JS.completion]); what the handlers mutate (database tables, the
    [sseClients] map, the timers of the page) is passed as state. *)

From Stdlib Require Import ZArith List String Ascii Strings.Byte Bool Lia Floats.
From stdpp Require Import base option list sorting gmap strings.
From Equations Require Import Equations.
Import ListNotations.

#[local] Set Warnings "-inexact-float".

#[local] Open Scope string_scope.
#[local] Open Scope list_scope.

(** ** The host: library functions the repository calls but does not define *)

(** [Number_toString] and [String_toNumber] are ECMA-262's Number::toString and
    StringToNumber; the code never calls them itself, they are reached only
    when [+], [*], [/], [-], [>] or [Math.floor] coerce an operand that is not
    a number.  [z_string_datetime] is zod's [z.string().datetime()] check and
    [Date_parse] the instant (milliseconds since the epoch) that [new Date(s)]
    reads from a string. *)
Class Host : Type := {
  Number_toString : float -> string;
  String_toNumber : string -> float;
  z_string_datetime : string -> bool;
  Date_parse : string -> Z
}.

Module JS.

(** *** Values *)

#[local] Unset Elimination Schemes.
Inductive value : Type :=
| Undefined
| Null
| Bool (b : bool)
| Num (x : float)
| Str (s : string)
| Arr (elements : list value)
| Obj (properties : list (string * value)).
#[local] Set Elimination Schemes.

(** *** Completions: a result or a thrown exception *)

Inductive error : Type :=
| SyntaxError
| TypeError
| ZodError
| Error (message : string).

Inductive completion (A : Type) : Type :=
| normal (a : A)
| throw (e : error).
Arguments normal {A} a.
Arguments throw {A} e.

Definition bind {A B} (c : completion A) (k : A -> completion B) : completion B :=
  match c with
  | normal a => k a
  | throw e => throw e
  end.

(** [try { c } catch (e) { handler e }] *)
Definition try_catch {A} (c : completion A) (handler : error -> A) : A :=
  match c with
  | normal a => a
  | throw e => handler e
  end.

(** *** Numbers *)

Definition isNaN (x : float) : bool :=
  match Prim2SF x with S754_nan => true | _ => false end.

Definition isZero (x : float) : bool :=
  match Prim2SF x with S754_zero _ => true | _ => false end.

(** [Number.isFinite] *)
Definition isFinite (x : float) : bool :=
  match Prim2SF x with
  | S754_zero _ | S754_finite _ _ _ => true
  | S754_infinity _ | S754_nan => false
  end.

Definition two52 : float := 4503599627370496%float.

(** [Math.floor] on a number.  From 2^52 on every binary64 value is an
    integer; below, adding and subtracting 2^52 rounds to the nearest
    integer, which is then stepped down when it lies above the argument. *)
Definition floor (x : float) : float :=
  if isNaN x || isZero x || PrimFloat.leb two52 (PrimFloat.abs x) then x
  else
    let r := if PrimFloat.ltb x 0
             then PrimFloat.add (PrimFloat.sub x two52) two52
             else PrimFloat.sub (PrimFloat.add x two52) two52 in
    if PrimFloat.ltb x r then PrimFloat.sub r 1 else r.

(** *** Coercions (ECMA-262 7.1) *)

Definition ToBoolean (v : value) : bool :=
  match v with
  | Undefined | Null => false
  | Bool b => b
  | Num x => negb (isZero x || isNaN x)
  | Str s => negb (String.eqb s "")
  | Arr _ | Obj _ => true
  end.

Fixpoint join (sep : string) (parts : list string) : string :=
  match parts with
  | [] => ""
  | [p] => p
  | p :: rest => p ++ sep ++ join sep rest
  end.

Section Coercions.
Context `{host : Host}.

(** [ToString]; an array prints as [Array.prototype.join] does, an object
    as "[object Object]". *)
Fixpoint ToString (v : value) : string :=
  match v with
  | Undefined => "undefined"
  | Null => "null"
  | Bool true => "true"
  | Bool false => "false"
  | Num x => Number_toString x
  | Str s => s
  | Arr xs =>
      join "," (map (fun e => match e with
                              | Undefined | Null => ""
                              | _ => ToString e
                              end) xs)
  | Obj _ => "[object Object]"
  end.

Definition ToPrimitive (v : value) : value :=
  match v with
  | Arr _ | Obj _ => Str (ToString v)
  | _ => v
  end.

Definition ToNumber (v : value) : float :=
  match ToPrimitive v with
  | Undefined => nan
  | Null => 0%float
  | Bool true => 1%float
  | Bool false => 0%float
  | Num x => x
  | Str s => String_toNumber s
  | Arr _ | Obj _ => nan
  end.

Definition isString (v : value) : bool :=
  match v with Str _ => true | _ => false end.

(** [a + b] *)
Definition add (a b : value) : value :=
  let pa := ToPrimitive a in
  let pb := ToPrimitive b in
  if isString pa || isString pb
  then Str (ToString pa ++ ToString pb)
  else Num (PrimFloat.add (ToNumber pa) (ToNumber pb)).

(** [a - b], [a * b], [a / b] *)
Definition sub (a b : value) : value :=
  Num (PrimFloat.sub (ToNumber a) (ToNumber b)).
Definition mul (a b : value) : value :=
  Num (PrimFloat.mul (ToNumber a) (ToNumber b)).
Definition div (a b : value) : value :=
  Num (PrimFloat.div (ToNumber a) (ToNumber b)).

(** [a > n] against a number [n] (the only comparison in the sources):
    both sides are compared as numbers, and a [nan] compares false. *)
Definition gt (a : value) (n : float) : bool :=
  PrimFloat.ltb n (ToNumber a).

Definition Math_floor (v : value) : value := Num (floor (ToNumber v)).
End Coercions.

(** [a || b] *)
Definition or (a b : value) : value := if ToBoolean a then a else b.

(** [a === b]; two arrays or objects are equal only when they are the same
    object, which no two values built separately are. *)
Definition strict_equals (a b : value) : bool :=
  match a, b with
  | Undefined, Undefined | Null, Null => true
  | Bool x, Bool y => Bool.eqb x y
  | Num x, Num y => PrimFloat.eqb x y
  | Str x, Str y => String.eqb x y
  | _, _ => false
  end.

(** [v.k] for a key [k] that is neither an array index nor defined by a
    prototype (such as [value]): reading a property of [undefined] or
    [null] throws a TypeError, an own property is returned, anything else
    is [undefined]. *)
Fixpoint lookup_property (k : string) (ps : list (string * value)) : value :=
  match ps with
  | [] => Undefined
  | (k', v) :: rest => if String.eqb k k' then v else lookup_property k rest
  end.

Definition Get (v : value) (k : string) : completion value :=
  match v with
  | Undefined | Null => throw TypeError
  | Obj ps => normal (lookup_property k ps)
  | _ => normal Undefined
  end.

(** *** JSON text *)

(** Text, as [JSON.parse] reads it: a JSON document, kept as the value it
    denotes (its characters are not modelled), or text that is no JSON
    document. *)
Inductive Text : Type :=
| json_text (doc : value)
| other_text (chars : string).

(** What [JSON.stringify] writes for a value (SerializeJSONProperty): a
    number that is not finite is written [null], a negative zero [0]; a
    property whose value is [undefined] is left out and an [undefined]
    array element is written [null]. *)
Fixpoint SerializeJSONProperty (v : value) : option value :=
  match v with
  | Undefined => None
  | Null => Some Null
  | Bool b => Some (Bool b)
  | Num x => Some (if isFinite x then (if isZero x then Num 0 else Num x) else Null)
  | Str s => Some (Str s)
  | Arr xs =>
      Some (Arr (map (fun e => match SerializeJSONProperty e with
                               | Some j => j
                               | None => Null
                               end) xs))
  | Obj ps =>
      Some (Obj (omap (fun p => match SerializeJSONProperty (snd p) with
                                | Some j => Some (fst p, j)
                                | None => None
                                end) ps))
  end.

(** [JSON.stringify(v)]; for [undefined] it returns [undefined], which as
    text is not JSON (the sources only serialise object literals). *)
Definition JSON_stringify (v : value) : Text :=
  match SerializeJSONProperty v with
  | Some doc => json_text doc
  | None => other_text "undefined"
  end.

(** [JSON.parse(text)] *)
Definition JSON_parse (text : Text) : completion value :=
  match text with
  | json_text doc => normal doc
  | other_text _ => throw SyntaxError
  end.

(** A Node [Buffer] holding text. *)
Inductive Buffer : Type := Buffer_from (text : Text).

Definition Buffer_toString (b : Buffer) : Text :=
  match b with Buffer_from text => text end.

End JS.

Notation "'let!' x ':=' c1 'in' c2" := (JS.bind c1 (fun x => c2))
  (at level 10, x name, c1 at level 100, c2 at level 200).

(** ** server/fhe.ts *)

Module Fhe.
Import JS.

Section Fhe.
Context `{host : Host}.

(** [encryptValue(value, publicKey)]; [now] is what [Date.now()] returns. *)
Definition encryptValue (value : value) (publicKey : string) (now : float) : Buffer :=
  let data := JSON_stringify
                (Obj [("value", value); ("encrypted", Bool true);
                      ("timestamp", Num now)]) in
  Buffer_from data.

(** [decryptValue(cipherBlob, privateKey)]: the value the call returns.
    What it writes to the console is [decryptValue_console] below. *)
Definition decryptValue (cipherBlob : Buffer) (privateKey : string) : value :=
  try_catch
    (let! data := JSON_parse (Buffer_toString cipherBlob) in
     let! v := Get data "value" in
     normal (or v (Num 0)))
    (fun error => Num 0).

(** What a call of [decryptValue] writes to the console: its [catch] calls
    [console.error('Decryption error:', error)] before it returns 0. *)
Definition decryptValue_console (cipherBlob : Buffer) (privateKey : string)
  : list string :=
  try_catch
    (let! data := JSON_parse (Buffer_toString cipherBlob) in
     let! v := Get data "value" in
     normal [])
    (fun error => ["Decryption error:"]).

(** [homomorphicAdd(cipher1, cipher2)] *)
Definition homomorphicAdd (cipher1 cipher2 : Buffer) (now : float) : Buffer :=
  let val1 := decryptValue cipher1 "" in
  let val2 := decryptValue cipher2 "" in
  let sum := add val1 val2 in
  let result := JSON_stringify
                  (Obj [("value", sum); ("encrypted", Bool true);
                        ("timestamp", Num now)]) in
  Buffer_from result.

(** [homomorphicSum(ciphers)]: [reduce] from 0, left to right. *)
Definition homomorphicSum (ciphers : list Buffer) (now : float) : Buffer :=
  let total := fold_left (fun acc cipher =>
                            let val := decryptValue cipher "" in
                            add acc val) ciphers (Num 0) in
  let result := JSON_stringify
                  (Obj [("value", total); ("encrypted", Bool true);
                        ("timestamp", Num now)]) in
  Buffer_from result.
End Fhe.

(** What a call of [homomorphicSum] writes to the console: it calls
    [decryptValue] once for each blob, in order. *)
Definition homomorphicSum_console (ciphers : list Buffer) : list string :=
  flat_map (fun cipher => decryptValue_console cipher "") ciphers.

(** *** Origin tokens *)

(** One digit of [toString('hex')]: lower case. *)
Definition hex_digit (n : N) : ascii :=
  match n with
  | 0 => "0" | 1 => "1" | 2 => "2" | 3 => "3" | 4 => "4" | 5 => "5" | 6 => "6"
  | 7 => "7" | 8 => "8" | 9 => "9" | 10 => "a" | 11 => "b" | 12 => "c"
  | 13 => "d" | 14 => "e" | _ => "f"
  end%N%char.

(** [buffer.toString('hex')]: two digits per byte, the high one first. *)
Fixpoint toString_hex (bytes : list byte) : string :=
  match bytes with
  | [] => ""
  | b :: rest =>
      String (hex_digit (Byte.to_N b / 16))
        (String (hex_digit (Byte.to_N b mod 16)) (toString_hex rest))
  end.

(** [generateOriginToken()]; [randomBytes] is what [crypto.randomBytes(24)]
    returns. *)
Definition generateOriginToken (randomBytes : list byte) : string :=
  "fhe_sk_" ++ toString_hex randomBytes.

(** The class [[a-f0-9]]. *)
Definition a_f0_9 (c : ascii) : bool :=
  let n := N_of_ascii c in
  ((97 <=? n) && (n <=? 102) || (48 <=? n) && (n <=? 57))%N.

(** What is left of [s] after the literal [prefix], when [s] starts with it. *)
Fixpoint after_prefix (prefix s : string) : option string :=
  match prefix, s with
  | EmptyString, _ => Some s
  | String p prefix, String c s => if Ascii.eqb p c then after_prefix prefix s else None
  | String _ _, EmptyString => None
  end.

(** [isValidOriginToken(token)]: [/^fhe_sk_[a-f0-9]{48}$/.test(token)]. *)
Definition isValidOriginToken (token : string) : bool :=
  match after_prefix "fhe_sk_" token with
  | Some rest =>
      Nat.eqb (String.length rest) 48 && forallb a_f0_9 (list_ascii_of_string rest)
  | None => false
  end.

End Fhe.

(** ** server/storage.ts *)

Module Storage.
Import JS.

(** Modelled from the spec: the rows of [shared/schema.ts], which is not
    among the sources.  The columns are those of the spec's data model that
    the queries and the routes name; generated columns ([id] of an event,
    [createdAt]) that no query reads are left out.  A timestamp is an
    instant in milliseconds since the epoch. *)
Record Origin : Type := {
  origin_id : string;
  domain : string;
  ownerAddress : string;
  token : string
}.

Record FheKey : Type := {
  key_originId : string;
  publicKey : string;
  keyFingerprint : string;
  isActive : string;
  key_createdAt : Z
}.

Record EncryptedEvent : Type := {
  originId : string;
  timestamp : Z;
  page : string;
  eventType : string;
  cipherBlob : Buffer;
  metadata : value
}.

(** The tables behind [db]. *)
Record Database : Type := {
  origins : list Origin;
  fheKeys : list FheKey;
  encryptedEvents : list EncryptedEvent
}.

(** [ORDER BY key DESC]: rows with the larger key first (SQL leaves the
    order of rows with equal keys open; the sort fixes one). *)
Definition desc {A} (key : A -> Z) : relation A := fun a b => (key b <= key a)%Z.

#[global] Instance desc_dec {A} (key : A -> Z) : RelDecision (desc key) :=
  fun a b => decide (key b <= key a)%Z.

Definition orderBy_desc {A} (key : A -> Z) (rows : list A) : list A :=
  merge_sort (desc key) rows.

(** [getOriginByToken(token)]: the first selected row, or [undefined]. *)
Definition getOriginByToken (db : Database) (t : string) : option Origin :=
  head (filter (fun o => token o = t) (origins db)).

(** [getActiveKey(originId)] *)
Definition getActiveKey (db : Database) (oid : string) : option FheKey :=
  head (take 1 (orderBy_desc key_createdAt
                  (filter (fun k => key_originId k = oid /\ isActive k = "true")
                          (fheKeys db)))).

(** [createEncryptedEvent(event)]: the row is appended to the table. *)
Definition createEncryptedEvent (db : Database) (event : EncryptedEvent)
  : Database * EncryptedEvent :=
  ({| origins := origins db;
      fheKeys := fheKeys db;
      encryptedEvents := encryptedEvents db ++ [event] |}, event).

(** [getEventsByOrigin(originId, limit = 100)]: [limit] is [None] when the
    caller leaves the argument out. *)
Definition getEventsByOrigin (db : Database) (oid : string) (limit : option nat)
  : list EncryptedEvent :=
  let limit := default 100 limit in
  take limit (orderBy_desc timestamp
                (filter (fun e => originId e = oid) (encryptedEvents db))).

(** The calls of [storage] that the collect route and the recomputation it
    schedules await, as the database receives them. *)
Inductive query : Type :=
| select_origin_by_token (token : string)          (* getOriginByToken(token) *)
| select_active_key (originId : string)            (* getActiveKey(originId) *)
| insert_encrypted_event (event : EncryptedEvent)  (* createEncryptedEvent(event) *)
| select_events_by_origin (originId : string) (limit : nat).
                                                   (* getEventsByOrigin(originId, limit) *)

(** [getEventsByDateRange(originId, startDate, endDate)]: both ends of the
    range are included, and there is no limit. *)
Definition getEventsByDateRange (db : Database) (oid : string) (startDate endDate : Z)
  : list EncryptedEvent :=
  orderBy_desc timestamp
    (filter (fun e => originId e = oid
                      /\ (startDate <= timestamp e)%Z /\ (timestamp e <= endDate)%Z)
            (encryptedEvents db)).

(** [createFheKey(key)]: the row is appended to the table; [key] is the row
    as the table holds it, its [createdAt] filled in. *)
Definition createFheKey (db : Database) (key : FheKey) : Database * FheKey :=
  ({| origins := origins db;
      fheKeys := fheKeys db ++ [key];
      encryptedEvents := encryptedEvents db |}, key).

(** [getKeysByOrigin(originId)] *)
Definition getKeysByOrigin (db : Database) (oid : string) : list FheKey :=
  orderBy_desc key_createdAt (filter (fun k => key_originId k = oid) (fheKeys db)).

End Storage.

(** ** server/routes.ts *)

Module Routes.
Import JS Fhe Storage.

(** An open response stream (an Express [Response] held for server-sent
    events), named by its connection. *)
Definition Response : Type := nat.

(** What was written on a stream: [`data: ${data}\n\n`]. *)
Inductive Chunk : Type := sse_data (data : Text).

(** What a handler did besides changing the tables, in the order it did it. *)
Inductive effect : Type :=
| Stringified (v : value)                     (* JSON.stringify(v) was evaluated *)
| Written (client : Response) (chunk : Chunk) (* client.write(chunk) returned *)
| WriteThrew (client : Response)              (* client.write(chunk) threw *)
| ConsoleError (message : string).

(** A job handed to [setImmediate]: the recomputation for an origin. *)
Inductive job : Type := recompute (origin : Origin).

Record Server : Type := {
  db : Database;
  (** [sseClients : Map<string, Set<Response>>]; a Set keeps its members
      in insertion order and holds each once. *)
  sseClients : gmap string (list Response);
  immediates : list job;
  log : list effect
}.

Definition set_db (d : Database) (st : Server) : Server :=
  {| db := d; sseClients := sseClients st; immediates := immediates st; log := log st |}.
Definition set_sseClients (m : gmap string (list Response)) (st : Server) : Server :=
  {| db := db st; sseClients := m; immediates := immediates st; log := log st |}.
Definition setImmediate (j : job) (st : Server) : Server :=
  {| db := db st; sseClients := sseClients st;
     immediates := immediates st ++ [j]; log := log st |}.
Definition emit (e : effect) (st : Server) : Server :=
  {| db := db st; sseClients := sseClients st; immediates := immediates st;
     log := log st ++ [e] |}.

(** [set.add(x)] and [set.delete(x)] *)
Definition Set_add (x : Response) (set : list Response) : list Response :=
  if decide (x ∈ set) then set else set ++ [x].
Definition Set_delete (x : Response) (set : list Response) : list Response :=
  filter (fun y => y <> x) set.

(** [client.write(chunk)]: [writable] tells the streams on which a write
    goes through from those on which it throws. *)
Definition write (writable : Response -> bool) (client : Response) (chunk : Chunk)
  (st : Server) : completion Server :=
  if writable client then normal (emit (Written client chunk) st)
  else throw (Error "write after end").

(** The body of the [forEach] callback of [broadcastMetricsUpdate]. *)
Definition send_update (writable : Response -> bool) (originId : string)
  (data : Text) (st : Server) (client : Response) : Server :=
  try_catch
    (write writable client (sse_data data) st)
    (fun error =>
       let st := emit (WriteThrew client) st in
       let st := emit (ConsoleError "[SSE] Failed to send update:") st in
       (* clients.delete(client): the Set is the one the map holds *)
       set_sseClients
         (alter (Set_delete client) originId (sseClients st)) st).

(** [broadcastMetricsUpdate(originId, metrics)] *)
Definition broadcastMetricsUpdate (writable : Response -> bool) (originId : string)
  (metrics : value) (st : Server) : completion Server :=
  match sseClients st !! originId with
  | None => normal st
  | Some clients =>
      let data := JSON_stringify metrics in
      let st := emit (Stringified metrics) st in
      normal (fold_left (send_update writable originId data) clients st)
  end.

(** [GET /api/metrics/:originId/stream]: the stream is registered and told
    that it is connected. *)
Definition subscribe (originId : string) (res : Response) (st : Server) : Server :=
  let clients := default [] (sseClients st !! originId) in
  let st := set_sseClients (<[originId := Set_add res clients]> (sseClients st)) st in
  emit (Written res
          (sse_data (JSON_stringify
                       (Obj [("connected", Bool true); ("originId", Str originId)]))))
       st.

(** The [close] handler of a stream. *)
Definition unsubscribe (originId : string) (res : Response) (st : Server) : Server :=
  match sseClients st !! originId with
  | None => st
  | Some clients =>
      let clients := Set_delete res clients in
      if decide (length clients = 0)
      then set_sseClients (delete originId (sseClients st)) st
      else set_sseClients (<[originId := clients]> (sseClients st)) st
  end.

(** *** Responses *)

Record Metrics : Type := {
  visitors : value;
  pageviews : value;
  sessions : value;
  avgSession : value;
  bounceRate : value;
  conversions : value
}.

Inductive Body : Type :=
| error_body (error : string)
| accepted_body                       (* { accepted, encrypted, realtime, message } *)
| metrics_body (metrics : Metrics).   (* { metrics: {..., encrypted: true}, ... } *)

Definition Reply : Type := (nat * Body)%type.

Section Handlers.
Context `{host : Host}.

(** *** POST /api/collect *)

(** The body as [schema.parse] returns it. *)
Record CollectBody : Type := {
  body_originToken : string;
  body_timestamp : string;
  body_page : string;
  body_eventType : string;
  body_value : value;      (* a number, or undefined *)
  body_metadata : value
}.

Definition z_enum_eventType (s : string) : bool :=
  String.eqb s "pageview" || String.eqb s "session"
  || String.eqb s "conversion" || String.eqb s "event".

(** [z.number().optional()]: [undefined], or a number; zod 3 takes every
    number but NaN, the infinities included. *)
Definition z_number_optional (v : value) : bool :=
  match v with
  | Undefined => true
  | Num x => negb (isNaN x)
  | _ => false
  end.

(** [schema.parse(req.body)]; a mismatch throws a ZodError. *)
Definition schema_parse (body : value) : completion CollectBody :=
  match body with
  | Obj ps =>
      match lookup_property "originToken" ps, lookup_property "timestamp" ps,
            lookup_property "page" ps, lookup_property "eventType" ps with
      | Str tok, Str ts, Str pg, Str ty =>
          if z_string_datetime ts && z_enum_eventType ty
             && z_number_optional (lookup_property "value" ps)
          then normal {| body_originToken := tok;
                         body_timestamp := ts;
                         body_page := pg;
                         body_eventType := ty;
                         body_value := lookup_property "value" ps;
                         body_metadata := lookup_property "metadata" ps |}
          else throw ZodError
      | _, _, _, _ => throw ZodError
      end
  | _ => throw ZodError
  end.

(** [await storage.f(...)]: the promise of a query the database carries out
    resolves with its result, that of a query it rejects (a parameter it
    refuses, such as text that holds a NUL character, or a connection that
    is lost) rejects, which throws at the [await].  [accepts] tells the
    queries the database carries out from those it rejects. *)
Definition await {A} (accepts : query -> bool) (q : query) (result : A)
  : completion A :=
  if accepts q then normal result else throw (Error "database error").

(** The row the handler gives to [createEncryptedEvent]. *)
Definition collected_event (body : CollectBody) (origin : Origin) (key : FheKey)
  (now : float) : EncryptedEvent :=
  (* Encrypt value *)
  let value := or (body_value body) (Num 1) in
  let cipherBlob := encryptValue value (publicKey key) now in
  {| originId := origin_id origin;
     timestamp := Date_parse (body_timestamp body);
     page := body_page body;
     eventType := body_eventType body;
     cipherBlob := cipherBlob;
     metadata := or (body_metadata body) Null |}.

(** The handler, up to its response; the recomputation it schedules with
    [setImmediate] is [run_recompute] below.  Whatever is thrown inside the
    [try], by the schema or by an awaited call of [storage], is caught,
    logged and answered 400. *)
Definition collect (accepts : query -> bool) (req_body : value) (now : float)
  (st : Server) : Server * Reply :=
  try_catch
    (let! body := schema_parse req_body in
     (* Verify origin token *)
     let! origin := await accepts (select_origin_by_token (body_originToken body))
                      (getOriginByToken (db st) (body_originToken body)) in
     match origin with
     | None => normal (st, (401, error_body "Invalid origin token"))
     | Some origin =>
         (* Get active key *)
         let! key := await accepts (select_active_key (origin_id origin))
                       (getActiveKey (db st) (origin_id origin)) in
         match key with
         | None => normal (st, (500, error_body "No encryption key configured"))
         | Some key =>
             (* Store encrypted event *)
             let event := collected_event body origin key now in
             let! stored := await accepts (insert_encrypted_event event)
                              (createEncryptedEvent (db st) event) in
             let st := set_db (fst stored) st in
             (* Immediately compute and broadcast updated metrics *)
             let st := setImmediate (recompute origin) st in
             normal (st, (202, accepted_body))
         end
     end)
    (fun error =>
       (emit (ConsoleError "[API] Collect error:") st,
        (400, error_body "Invalid request"))).

Definition zero_cipher : Buffer :=
  Buffer_from (JSON_stringify (Obj [("value", Num 0); ("encrypted", Bool true)])).

Definition ofType (ty : string) (events : list EncryptedEvent) : list EncryptedEvent :=
  filter (fun e => eventType e = ty) events.

(** The callback given to [setImmediate] in the collect handler, from the
    point where its read of the window has resolved; [recompute_callback]
    below is the callback with the read it awaits. *)
Definition run_recompute (origin : Origin) (now : float)
  (writable : Response -> bool) (st : Server) : Server :=
  try_catch
    (let events := getEventsByOrigin (db st) (origin_id origin) (Some 1000) in
     let pageviewEvents := ofType "pageview" events in
     let sessionEvents := ofType "session" events in
     let conversionEvents := ofType "conversion" events in
     let pageviewsCipher :=
       if (0 <? length pageviewEvents)%nat
       then homomorphicSum (map cipherBlob pageviewEvents) now else zero_cipher in
     let sessionsCipher :=
       if (0 <? length sessionEvents)%nat
       then homomorphicSum (map cipherBlob sessionEvents) now else zero_cipher in
     let conversionsCipher :=
       if (0 <? length conversionEvents)%nat
       then homomorphicSum (map cipherBlob conversionEvents) now else zero_cipher in
     let pageviews := decryptValue pageviewsCipher "" in
     let sessions := decryptValue sessionsCipher "" in
     let conversions := decryptValue conversionsCipher "" in
     (* what the calls of the codec above wrote to the console, in their
        order ([homomorphicSum] of no blob, which is not called, writes
        nothing) *)
     let console :=
       homomorphicSum_console (map cipherBlob pageviewEvents)
       ++ homomorphicSum_console (map cipherBlob sessionEvents)
       ++ homomorphicSum_console (map cipherBlob conversionEvents)
       ++ decryptValue_console pageviewsCipher ""
       ++ decryptValue_console sessionsCipher ""
       ++ decryptValue_console conversionsCipher "" in
     let st := fold_left (fun st message => emit (ConsoleError message) st) console st in
     let visitors := Math_floor (mul sessions (Num 0.7)) in
     let avgSession :=
       if gt sessions 0 then Math_floor (div pageviews sessions) else Num 0 in
     broadcastMetricsUpdate writable (origin_id origin)
       (Obj [("metrics",
              Obj [("visitors", visitors); ("pageviews", pageviews);
                   ("sessions", sessions); ("avgSession", avgSession);
                   ("conversions", conversions); ("encrypted", Bool true)]);
             ("timestamp", Num now)])
       st)
    (fun error => emit (ConsoleError "[SSE] Failed to broadcast update:") st).

(** The callback given to [setImmediate], with its [await]: when the
    database rejects the read of the window, the [catch] logs the error and
    nothing else is done. *)
Definition recompute_callback (accepts : query -> bool) (origin : Origin) (now : float)
  (writable : Response -> bool) (st : Server) : Server :=
  try_catch
    (let! events := await accepts (select_events_by_origin (origin_id origin) 1000)
                      (getEventsByOrigin (db st) (origin_id origin) (Some 1000)) in
     (* [run_recompute] goes on from these events *)
     normal (run_recompute origin now writable st))
    (fun error => emit (ConsoleError "[SSE] Failed to broadcast update:") st).

(** *** GET /api/metrics/:originId *)

(** The [metrics] object of the response.  The [timeSeries] and [topPages]
    of the response are computed afterwards, from the same events, do not
    feed into [metrics], and are not modelled. *)
Definition get_metrics (originId : string) (now : float) (st : Server) : Reply :=
  (* Get recent events for homomorphic aggregation *)
  let events := getEventsByOrigin (db st) originId (Some 1000) in
  let pageviewEvents := ofType "pageview" events in
  let sessionEvents := ofType "session" events in
  let conversionEvents := ofType "conversion" events in
  (* Compute encrypted sums *)
  let pageviewsCipher :=
    if (0 <? length pageviewEvents)%nat
    then homomorphicSum (map cipherBlob pageviewEvents) now else zero_cipher in
  let sessionsCipher :=
    if (0 <? length sessionEvents)%nat
    then homomorphicSum (map cipherBlob sessionEvents) now else zero_cipher in
  let conversionsCipher :=
    if (0 <? length conversionEvents)%nat
    then homomorphicSum (map cipherBlob conversionEvents) now else zero_cipher in
  (* Decrypt ONLY aggregates *)
  let pageviews := decryptValue pageviewsCipher "" in
  let sessions := decryptValue sessionsCipher "" in
  let conversions := decryptValue conversionsCipher "" in
  (* Calculate derived metrics *)
  let visitors := Math_floor (mul sessions (Num 0.7)) in
  let avgSession :=
    if gt sessions 0 then Math_floor (div pageviews sessions) else Num 0 in
  let bounceRate :=
    if gt sessions 0
    then Math_floor (mul (sub (Num 1) (div avgSession pageviews)) (Num 100))
    else Num 0 in
  (200, metrics_body {| visitors := visitors;
                        pageviews := pageviews;
                        sessions := sessions;
                        avgSession := avgSession;
                        bounceRate := bounceRate;
                        conversions := conversions |}).
End Handlers.

End Routes.

(** ** public/fhe-analytics.js *)

Module Client.
Import JS.

Module CONFIG.
Definition batchSize : nat := 5.
Definition batchTimeout : Z := 3000.
Definition retryAttempts : nat := 3.
Definition retryDelay : Z := 1000.
End CONFIG.

(** What [queueEvent] reads from the page. *)
Record Page : Type := {
  pathname : string;
  referrer : string;
  userAgent : string;
  screenWidth : float;
  screenHeight : float
}.

(** A queued event; [timestamp] is the instant whose ISO string
    [new Date().toISOString()] gives. *)
Record Event : Type := {
  originToken : string;
  timestamp : Z;
  page : string;
  eventType : string;
  value : JS.value;
  metadata : list (string * JS.value)
}.

(** [{ ...a, k: v }]: a later property replaces an earlier one of the same
    name, in place. *)
Fixpoint assign (k : string) (v : JS.value) (ps : list (string * JS.value))
  : list (string * JS.value) :=
  match ps with
  | [] => [(k, v)]
  | (k', v') :: rest =>
      if String.eqb k k' then (k, v) :: rest else (k', v') :: assign k v rest
  end.

(** The fields of a [FHEAnalytics] object that batching uses. *)
Record FHEAnalytics : Type := {
  this_originToken : string;
  eventQueue : list Event;
  sessionId : string;
  (** [null], or the id [setTimeout] returned (ids are positive, so an id
      is truthy). *)
  batchTimer : option nat
}.

(** The page: the analytics object, the clock, the pending timers (each
    [setTimeout(() => this.flush(), ...)] with its id and the instant it is
    due), and, per call of [flush] that drained the queue, the events it
    handed to [sendEvent]. *)
Record Window : Type := {
  this : FHEAnalytics;
  now : Z;
  timers : list (nat * Z);
  next_timer : nat;
  dispatched : list (list Event)
}.

Definition set_this (a : FHEAnalytics) (w : Window) : Window :=
  {| this := a; now := now w; timers := timers w; next_timer := next_timer w;
     dispatched := dispatched w |}.
Definition set_eventQueue (q : list Event) (w : Window) : Window :=
  set_this {| this_originToken := this_originToken (this w);
              eventQueue := q;
              sessionId := sessionId (this w);
              batchTimer := batchTimer (this w) |} w.
Definition set_batchTimer (t : option nat) (w : Window) : Window :=
  set_this {| this_originToken := this_originToken (this w);
              eventQueue := eventQueue (this w);
              sessionId := sessionId (this w);
              batchTimer := t |} w.

(** [setTimeout(callback, delay)]: returns the id with the new state. *)
Definition setTimeout (delay : Z) (w : Window) : nat * Window :=
  (next_timer w,
   {| this := this w; now := now w;
      timers := timers w ++ [(next_timer w, (now w + delay)%Z)];
      next_timer := S (next_timer w);
      dispatched := dispatched w |}).

(** [clearTimeout(id)]: a timer that is not pending is left alone. *)
Definition clearTimeout (id : nat) (w : Window) : Window :=
  {| this := this w; now := now w;
     timers := filter (fun t => fst t <> id) (timers w);
     next_timer := next_timer w;
     dispatched := dispatched w |}.

(** [flush()]: up to its calls of [sendEvent], which are recorded. *)
Definition flush (w : Window) : Window :=
  if decide (length (eventQueue (this w)) = 0) then w
  else
    let events := eventQueue (this w) in
    let w := set_eventQueue [] w in
    let w := match batchTimer (this w) with
             | Some id => set_batchTimer None (clearTimeout id w)
             | None => w
             end in
    (* for (const event of events) this.sendEvent(event) *)
    {| this := this w; now := now w; timers := timers w;
       next_timer := next_timer w;
       dispatched := dispatched w ++ [events] |}.

(** [queueEvent(eventType, value = 1, metadata = {})] *)
Definition queueEvent (doc : Page) (eventType : string) (value : JS.value)
  (metadata : list (string * JS.value)) (w : Window) : Window :=
  let event :=
    {| originToken := this_originToken (this w);
       timestamp := now w;
       page := pathname doc;
       eventType := eventType;
       value := value;
       metadata :=
         assign "screenHeight" (Num (screenHeight doc))
           (assign "screenWidth" (Num (screenWidth doc))
              (assign "userAgent" (Str (userAgent doc))
                 (assign "referrer" (Str (referrer doc))
                    (assign "sessionId" (Str (sessionId (this w))) metadata)))) |} in
  let w := set_eventQueue (eventQueue (this w) ++ [event]) w in
  (* Clear existing timer *)
  let w := match batchTimer (this w) with
           | Some id => clearTimeout id w
           | None => w
           end in
  (* Send batch if queue is full *)
  if (CONFIG.batchSize <=? length (eventQueue (this w)))%nat
  then flush w
  else
    let (id, w) := setTimeout CONFIG.batchTimeout w in
    set_batchTimer (Some id) w.

(** [trackEvent(eventName, metadata = {})], exposed as [track]. *)
Definition trackEvent (doc : Page) (eventName : string)
  (metadata : list (string * JS.value)) (w : Window) : Window :=
  queueEvent doc "event" (Num 1)
    (fold_left (fun ps p => assign (fst p) (snd p) ps) metadata
               [("eventName", Str eventName)]) w.

(** [trackPageview()] and [trackSession()] *)
Definition trackPageview (doc : Page) (w : Window) : Window :=
  queueEvent doc "pageview" (Num 1) [] w.

Definition trackSession (doc : Page) (w : Window) : Window :=
  queueEvent doc "session" (Num 1) [] w.

(** [init()], which the constructor calls: once [fetchPublicKey] has set the
    placeholder key, the first page view and the session start are queued
    ([setupListeners] then registers the click, visibility and unload
    listeners). *)
Definition init (doc : Page) (w : Window) : Window :=
  trackSession doc (trackPageview doc w).

(** The event loop: the pending timer that is due first, no later than
    [deadline]. *)
Fixpoint next_due (deadline : Z) (ts : list (nat * Z)) : option (nat * Z) :=
  match ts with
  | [] => None
  | t :: rest =>
      match next_due deadline rest with
      | Some t' => if (snd t' <? snd t)%Z then Some t'
                   else if (snd t <=? deadline)%Z then Some t else Some t'
      | None => if (snd t <=? deadline)%Z then Some t else None
      end
  end.

(** Fires the timers due by [deadline], earliest first; a fired timer runs
    [flush] at the instant it was due.  [flush] sets no timer, so one round
    per pending timer is enough. *)
Fixpoint run_timers (rounds : nat) (deadline : Z) (w : Window) : Window :=
  match rounds with
  | O => w
  | S rounds =>
      match next_due deadline (timers w) with
      | None => w
      | Some (id, due) =>
          let w := {| this := this w; now := Z.max (now w) due;
                      timers := filter (fun t => fst t <> id) (timers w);
                      next_timer := next_timer w;
                      dispatched := dispatched w |} in
          run_timers rounds deadline (flush w)
      end
  end.

(** [ms] milliseconds pass with no call from the page. *)
Definition elapse (ms : Z) (w : Window) : Window :=
  let w' := run_timers (length (timers w)) (now w + ms)%Z w in
  {| this := this w'; now := (now w + ms)%Z; timers := timers w';
     next_timer := next_timer w'; dispatched := dispatched w' |}.

(** The page after [new FHEAnalytics(originToken)], before [init] queues
    anything. *)
Definition new_FHEAnalytics (originToken sessionId : string) (t0 : Z) : Window :=
  {| this := {| this_originToken := originToken; eventQueue := [];
                sessionId := sessionId; batchTimer := None |};
     now := t0; timers := []; next_timer := 1; dispatched := [] |}.

(** *** Delivery of one event *)

(** How a [fetch] ends: a response that is [ok], a response that is not
    (with its status), or a rejection (no response at all). *)
Inductive outcome : Type :=
| response_ok
| response_not_ok (status : nat)
| rejected.

(** What a delivery does, in order. *)
Inductive action : Type :=
| Fetch (event : Event) (attempt : nat) (* fetch(CONFIG.apiEndpoint, { body: event, ... }) *)
| ConsoleLog                             (* 'Event sent:' *)
| ConsoleError                           (* 'Send failed:' *)
| Delay (ms : Z).                        (* setTimeout(..., ms) until its callback runs *)

(** [await fetch(...); if (!response.ok) throw new Error(...)] *)
Definition fetch_ok (o : outcome) : completion unit :=
  match o with
  | response_ok => normal tt
  | response_not_ok status => throw (Error "HTTP status")
  | rejected => throw TypeError
  end.

(** [sendEvent(event, attempt = 1)]: the actions of the call and of the
    retries it schedules, and how the last call completes.  [network] gives
    the outcome of the fetch of each attempt. *)
Equations sendEvent (network : nat -> outcome) (event : Event) (attempt : nat)
  : list action * completion unit by wf (CONFIG.retryAttempts - attempt) lt :=
  sendEvent network event attempt with fetch_ok (network attempt) := {
    | normal _ => ([Fetch event attempt; ConsoleLog], normal tt)
    | throw _ with lt_dec attempt CONFIG.retryAttempts := {
        | left _ =>
            let delay := (CONFIG.retryDelay * Z.of_nat attempt)%Z in
            let (rest, r) := sendEvent network event (attempt + 1) in
            ([Fetch event attempt; ConsoleError; Delay delay] ++ rest, r)
        | right _ => ([Fetch event attempt; ConsoleError], normal tt)
      }
  }.
Next Obligation. lia. Qed.

(** [trackConversion(value = 1, metadata = {})], exposed as [conversion]:
    the default stands in for a [value] that is [undefined]. *)
Definition trackConversion (doc : Page) (value : JS.value)
  (metadata : list (string * JS.value)) (w : Window) : Window :=
  let value := match value with Undefined => Num 1 | _ => value end in
  queueEvent doc "conversion" value metadata w.

(** What the page does to the agent: a call of its public API, the page
    being hidden or unloaded (the listeners of [setupListeners] then call
    [flush]), or time passing. *)
Inductive call : Type :=
| Pageview
| Session
| Track (eventName : string) (metadata : list (string * JS.value))
| Conversion (value : JS.value) (metadata : list (string * JS.value))
| Hidden
| Wait (ms : Z).

Definition step (doc : Page) (c : call) (w : Window) : Window :=
  match c with
  | Pageview => trackPageview doc w
  | Session => trackSession doc w
  | Track eventName metadata => trackEvent doc eventName metadata w
  | Conversion value metadata => trackConversion doc value metadata w
  | Hidden => flush w
  | Wait ms => elapse ms w
  end.

Definition run (doc : Page) (calls : list call) (w : Window) : Window :=
  fold_left (fun w c => step doc c w) calls w.

End Client.

(** ** The serverless handler (the source bundled after public/fhe-analytics.js) *)

Module Api.
Import JS Fhe.

(** [n.toString(16)] for a byte [n]: one digit below 16, two from there on. *)
Definition Number_toString_16 (n : N) : string :=
  if (n <? 16)%N then String (hex_digit n) ""
  else String (hex_digit (n / 16)) (String (hex_digit (n mod 16)) "").

(** [s.padStart(targetLength, pad)] for a pad of one character. *)
Definition padStart (targetLength : nat) (pad : ascii) (s : string) : string :=
  string_of_list_ascii (repeat pad (targetLength - String.length s)) ++ s.

(** [randomToken()]; [bytes] is what [crypto.getRandomValues] puts into the
    32 bytes. *)
Definition randomToken (bytes : list byte) : string :=
  "fhe_" ++ join "" (map (fun b => padStart 2 "0" (Number_toString_16 (Byte.to_N b)))
                         bytes).

End Api.

(** * Vocabulary of the properties *)

(** ** The codec *)

Section CodecVocabulary.
Import JS.

(** [v1 + ... + vN] as JavaScript computes it, from 0 and left to right. *)
Definition sum (vs : list float) : float := fold_left PrimFloat.add vs 0%float.

(** What a number is after a trip through [encryptValue] and [decryptValue]:
    itself when it is finite and not a zero, and 0 otherwise. *)
Definition snap (v : float) : float :=
  if isFinite v && negb (isZero v) then v else 0%float.

(** Numbers that are equal, or both a zero (of either sign). *)
Definition same_number (x y : float) : Prop :=
  x = y \/ (isZero x = true /\ isZero y = true).

(** The largest finite number, [Number.MAX_VALUE]. *)
Definition MAX_VALUE : float := 0x1.fffffffffffffp+1023%float.

End CodecVocabulary.

(** ** The store and the routes *)

Section ServerVocabulary.
Import JS Storage Routes.

(** The events of an origin, in table order. *)
Definition events_of (d : Database) (oid : string) : list EncryptedEvent :=
  filter (fun e => originId e = oid) (encryptedEvents d).


(** What one pass of [broadcastMetricsUpdate] over [clients] adds to the log. *)
Definition delivery (writable : Response -> bool) (data : Text) (clients : list Response)
  : list effect :=
  flat_map (fun client =>
              if writable client then [Written client (sse_data data)]
              else [WriteThrew client; ConsoleError "[SSE] Failed to send update:"])
           clients.

(** The members of [clients] on which a write throws. *)
Definition throwing (writable : Response -> bool) (clients : list Response)
  : list Response :=
  filter (fun c => writable c = false) clients.

(** The Set after the clients of [visited] whose write throws are deleted. *)
Definition pruned (writable : Response -> bool) (visited set : list Response)
  : list Response :=
  fold_left (fun set client => if writable client then set else Set_delete client set)
            visited set.

(** The values serialised, and the chunks written to a stream, in a log. *)
Definition serialized (l : list effect) : list value :=
  omap (fun e => match e with Stringified v => Some v | _ => None end) l.

Definition chunks_to (client : Response) (l : list effect) : list Chunk :=
  omap (fun e => match e with
                 | Written c chunk => if decide (c = client) then Some chunk else None
                 | _ => None
                 end) l.

End ServerVocabulary.

(** ** The batching agent *)

Section ClientVocabulary.
Import JS Client.

(** Every pending timer is the one [batchTimer] names. *)
Definition armed (w : Window) : Prop :=
  forall t, t ∈ timers w -> batchTimer (this w) = Some (fst t).

(** The event [queueEvent] builds in the state [w]. *)
Definition queued (doc : Page) (eventType : string) (value : JS.value)
  (metadata : list (string * JS.value)) (w : Window) : Event :=
  {| originToken := this_originToken (this w);
     timestamp := now w;
     page := pathname doc;
     eventType := eventType;
     value := value;
     metadata :=
       assign "screenHeight" (Num (screenHeight doc))
         (assign "screenWidth" (Num (screenWidth doc))
            (assign "userAgent" (Str (userAgent doc))
               (assign "referrer" (Str (referrer doc))
                  (assign "sessionId" (Str (sessionId (this w))) metadata)))) |}.

(** The event [track(name, metadata)] queues in the state [w]. *)
Definition tracked (doc : Page) (name : string) (metadata : list (string * JS.value))
  (w : Window) : Event :=
  queued doc "event" (Num 1)
    (fold_left (fun ps p => assign (fst p) (snd p) ps) metadata
       [("eventName", Str name)]) w.

(** A fetch that did not end in an [ok] response. *)
Definition failed (o : outcome) : bool :=
  match o with
  | response_ok => false
  | response_not_ok _ | rejected => true
  end.

End ClientVocabulary.

(** ** The codec, the streams and the agent, further *)

Section CodecVocabularyOfBlobs.
Import JS Fhe.

(** A blob that decodes to a number. *)
Definition numeric (cipher : Buffer) : Prop :=
  exists x, decryptValue cipher "" = Num x.

End CodecVocabularyOfBlobs.

Section PushVocabulary.
Import JS Storage Routes.

(** The update the recomputation pushes when the metrics are [m]. *)
Definition snapshot (m : Metrics) (now : float) : value :=
  Obj [("metrics",
        Obj [("visitors", visitors m); ("pageviews", pageviews m);
             ("sessions", sessions m); ("avgSession", avgSession m);
             ("conversions", conversions m); ("encrypted", Bool true)]);
       ("timestamp", Num now)].

(** What the [catch] of the collect handler leaves: the error is logged, the
    request is answered 400, and nothing else has changed. *)
Definition caught (st : Server) : Server * Reply :=
  (emit (ConsoleError "[API] Collect error:") st, (400, error_body "Invalid request")).

(** The chunks written to the streams, whichever, in a log. *)
Definition chunks_to_any (l : list effect) : list (Response * Chunk) :=
  omap (fun e => match e with Written c chunk => Some (c, chunk) | _ => None end) l.

(** A blob [decryptValue] cannot read: text that is no JSON, or a document
    that has no properties to read ([null]). *)
Definition unreadable (cipher : Buffer) : bool :=
  match Buffer_toString cipher with
  | other_text _ => true
  | json_text Undefined | json_text Null => true
  | json_text _ => false
  end.

(** What the recomputation over the window [events] writes to the console:
    one 'Decryption error:' for each page view, session and conversion whose
    blob cannot be read. *)
Definition decryption_errors (events : list EncryptedEvent) : list effect :=
  repeat (ConsoleError "Decryption error:")
         (length (filter (fun e => unreadable (cipherBlob e) = true)
                    (ofType "pageview" events ++ ofType "session" events
                     ++ ofType "conversion" events))).

(** The notice a stream is sent when it is registered. *)
Definition connected_notice (originId : string) : Chunk :=
  sse_data (JSON_stringify (Obj [("connected", Bool true); ("originId", Str originId)])).

End PushVocabulary.

Section RunVocabulary.
Import JS Client.

(** No wait of a negative length. *)
Definition well_timed (calls : list call) : Prop :=
  Forall (fun c => match c with Wait ms => (0 <= ms)%Z | _ => True end) calls.

(** The event a call queues in the state [w], if it queues one. *)
Definition event_of (doc : Page) (c : call) (w : Window) : list Event :=
  match c with
  | Pageview => [queued doc "pageview" (Num 1) [] w]
  | Session => [queued doc "session" (Num 1) [] w]
  | Track eventName metadata => [tracked doc eventName metadata w]
  | Conversion v metadata =>
      [queued doc "conversion" (match v with Undefined => Num 1 | _ => v end) metadata w]
  | Hidden | Wait _ => []
  end.

(** The events a run of calls queues, in order. *)
Fixpoint events_queued (doc : Page) (calls : list call) (w : Window) : list Event :=
  match calls with
  | [] => []
  | c :: calls => event_of doc c w ++ events_queued doc calls (step doc c w)
  end.

(** The state of the agent between two calls: either nothing is queued and
    no timer is pending, or fewer than [batchSize] events are queued behind
    the one pending timer, which [batchTimer] names and which is due within
    [batchTimeout]; and no batch dispatched so far is empty or longer than
    [batchSize]. *)
Definition between_calls (w : Window) : Prop :=
  ((eventQueue (this w) = [] /\ timers w = [])
   \/ (0 < length (eventQueue (this w)) < CONFIG.batchSize
       /\ exists id due,
            timers w = [(id, due)] /\ batchTimer (this w) = Some id
            /\ (now w < due <= now w + CONFIG.batchTimeout)%Z))
  /\ Forall (fun batch => 0 < length batch <= CONFIG.batchSize) (dispatched w).

(** An event carries the fields the agent attaches: the token, the page,
    and in its metadata the session id and what the browser reports. *)
Definition stamped (doc : Page) (token session : string) (e : Event) : Prop :=
  originToken e = token
  /\ page e = pathname doc
  /\ lookup_property "sessionId" (metadata e) = Str session
  /\ lookup_property "referrer" (metadata e) = Str (referrer doc)
  /\ lookup_property "userAgent" (metadata e) = Str (userAgent doc)
  /\ lookup_property "screenWidth" (metadata e) = Num (screenWidth doc)
  /\ lookup_property "screenHeight" (metadata e) = Num (screenHeight doc).

(** The attempts fetched, and the waits, of a delivery. *)
Definition fetches (actions : list action) : list nat :=
  omap (fun a => match a with Fetch _ attempt => Some attempt | _ => None end) actions.

Definition delays (actions : list action) : list Z :=
  omap (fun a => match a with Delay ms => Some ms | _ => None end) actions.

End RunVocabulary.

(** ** Data for the concrete runs *)

(** A host to evaluate concrete runs in.  Every theorem below holds in every
    host; no run below converts between numbers and strings, and the
    timestamps of the runs are accepted and read as instant 0. *)
Definition example_host : Host :=
  {| Number_toString := fun _ => "NaN";
     String_toNumber := fun _ => nan;
     z_string_datetime := fun _ => true;
     Date_parse := fun _ => 0%Z |}.

Section ExampleData.
Import JS Storage Routes.

Definition example_origin : Origin :=
  {| origin_id := "o1"; domain := "example.org"; ownerAddress := "0xabc";
     token := "fhe_sk_0001" |}.

Definition example_key : FheKey :=
  {| key_originId := "o1"; publicKey := "pk"; keyFingerprint := "sha256:00";
     isActive := "true"; key_createdAt := 0 |}.

(** A server that knows one origin and has stored no event. *)
Definition example_server : Server :=
  {| db := {| origins := [example_origin]; fheKeys := [example_key];
              encryptedEvents := [] |};
     sseClients := {[ "o1" := [1; 2; 3] ]};
     immediates := [];
     log := [] |}.

(** The body of a collect request. *)
Definition example_body (originToken eventType : string) (value : JS.value) : JS.value :=
  Obj [("originToken", Str originToken);
       ("timestamp", Str "2025-01-01T00:00:00.000Z");
       ("page", Str "/");
       ("eventType", Str eventType);
       ("value", value)].

(** The row the collect handler stores for an event of value [v]. *)
Definition stored_event (ty : string) (v : float) (ts : Z) (t : float) : EncryptedEvent :=
  {| originId := "o1"; timestamp := ts; page := "/"; eventType := ty;
     cipherBlob := Fhe.encryptValue (Num v) "pk" t; metadata := Null |}.

(** The example server after many page views. *)
Definition busy_database (n : nat) : Database :=
  {| origins := [example_origin]; fheKeys := [example_key];
     encryptedEvents := map (fun i => stored_event "pageview" 1 (Z.of_nat i) 0)
                            (seq 0 n) |}.

End ExampleData.

Section ClientExampleData.
Import JS Client.

Definition example_page : Page :=
  {| pathname := "/pricing"; referrer := ""; userAgent := "Mozilla/5.0";
     screenWidth := 1920; screenHeight := 1080 |}.

(** Five clicks, 10, 20, 30 and 40 ms apart, on a page whose agent has
    nothing queued. *)
Definition five_clicks : Window :=
  let w0 := new_FHEAnalytics "fhe_sk_0001" "sess_1" 0 in
  let w1 := trackEvent example_page "signup" [] w0 in
  let w2 := trackEvent example_page "signup" [] (elapse 10 w1) in
  let w3 := trackEvent example_page "signup" [] (elapse 20 w2) in
  let w4 := trackEvent example_page "signup" [] (elapse 30 w3) in
  trackEvent example_page "signup" [] (elapse 40 w4).

(** The same five clicks on a page that has just loaded: [init] has queued
    the page view and the session start, and the first click comes 50 ms
    later. *)
Definition five_clicks_after_load : Window :=
  let w0 := init example_page (new_FHEAnalytics "fhe_sk_0001" "sess_1" 0) in
  let w1 := trackEvent example_page "signup" [] (elapse 50 w0) in
  let w2 := trackEvent example_page "signup" [] (elapse 10 w1) in
  let w3 := trackEvent example_page "signup" [] (elapse 20 w2) in
  let w4 := trackEvent example_page "signup" [] (elapse 30 w3) in
  trackEvent example_page "signup" [] (elapse 40 w4).

Definition example_event : Event :=
  tracked example_page "signup" [] (new_FHEAnalytics "fhe_sk_0001" "sess_1" 0).

End ClientExampleData.

Section FurtherExampleData.
Import JS Storage Routes.

(** A second key for the example origin, made later than [example_key]. *)
Definition rotated_key : FheKey :=
  {| key_originId := "o1"; publicKey := "pk2"; keyFingerprint := "sha256:01";
     isActive := "true"; key_createdAt := 5 |}.

(** An event of another origin. *)
Definition foreign_event : EncryptedEvent :=
  {| originId := "o2"; timestamp := 9; page := "/"; eventType := "pageview";
     cipherBlob := Fhe.encryptValue (Num 1) "pk" 0; metadata := Null |}.

(** Text that holds no NUL character. *)
Definition no_NUL (s : string) : bool :=
  forallb (fun c => negb (Ascii.eqb c Ascii.zero)) (list_ascii_of_string s).

(** A database that refuses a text parameter that holds a NUL character, as
    PostgreSQL does, and carries out every other query. *)
Definition postgres (q : query) : bool :=
  match q with
  | select_origin_by_token token => no_NUL token
  | select_active_key originId => no_NUL originId
  | insert_encrypted_event event =>
      no_NUL (originId event) && no_NUL (page event) && no_NUL (eventType event)
  | select_events_by_origin originId limit => no_NUL originId
  end.

(** A token that holds a NUL character. *)
Definition NUL_token : string := "fhe_sk_" ++ String Ascii.zero "".



(** A page view without a [value], as the collect schema returns it. *)
Definition pageview_body : CollectBody :=
  {| body_originToken := "fhe_sk_0001";
     body_timestamp := "2025-01-01T00:00:00.000Z";
     body_page := "/";
     body_eventType := "pageview";
     body_value := Undefined;
     body_metadata := Undefined |}.

End FurtherExampleData.

Section FurtherClientExampleData.
Import JS Client.

(** A visit: the page loads, a conversion is recorded with a session id of
    the caller's own in its metadata, two clicks follow, the visitor idles,
    and two more clicks follow. *)
Definition example_visit : list call :=
  [Pageview; Session; Wait 50; Conversion (Num 3) [("sessionId", Str "forged")];
   Wait 10; Track "signup" []; Track "signup" []; Wait 5000; Track "signup" [];
   Track "signup" []].

End FurtherClientExampleData.

(** * Properties *)

(** ** Numbers *)

Example floor_of_fractions :
  map JS.floor [0.7; 2.5; 3.5; -0.3; -1.5; 7; -0; 0.5]%float
  = [0; 2; 3; -1; -2; 7; -0; 0]%float.
Proof. reflexivity. Qed.

Example floor_of_specials :
  map JS.floor [nan; infinity; neg_infinity; 1e300; 4503599627370495.5]%float
  = [nan; infinity; neg_infinity; 1e300; 4503599627370495]%float.
Proof. reflexivity. Qed.

(** ** The codec (server/fhe.ts) *)

Section CodecProperties.
Import JS Fhe.
Context `{host : Host}.

Lemma decrypt_stringify (v : value) (t : float) :
  decryptValue (Buffer_from (JSON_stringify
     (Obj [("value", v); ("encrypted", Bool true); ("timestamp", Num t)]))) ""
  = match SerializeJSONProperty v with
    | Some j => or j (Num 0)
    | None => Num 0
    end.
Proof.
  unfold decryptValue, JSON_stringify. cbn.
  destruct (SerializeJSONProperty v); cbn.
  all: destruct (isFinite t); try destruct (isZero t); reflexivity.
Qed.

Lemma decrypt_number (v t : float) :
  decryptValue (Buffer_from (JSON_stringify
     (Obj [("value", Num v); ("encrypted", Bool true); ("timestamp", Num t)]))) ""
  = Num (snap v).
Proof.
  rewrite decrypt_stringify. cbn.
  unfold snap, or, ToBoolean, isFinite, isZero, isNaN.
  destruct (Prim2SF v) eqn:E; cbn; rewrite ?E; reflexivity.
Qed.

Lemma decrypt_encrypt_number (v : float) (pk : string) (t : float) :
  decryptValue (encryptValue (Num v) pk t) "" = Num (snap v).
Proof. apply decrypt_number. Qed.

Lemma add_numbers (a b : float) : add (Num a) (Num b) = Num (PrimFloat.add a b).
Proof. reflexivity. Qed.

(** A sum is finite only if both terms are. *)
Lemma isFinite_add_inv (a v : float) :
  isFinite (PrimFloat.add a v) = true -> isFinite a = true /\ isFinite v = true.
Proof.
  unfold isFinite. rewrite add_spec.
  destruct (Prim2SF a) as [sa|sa| |sa ma ea], (Prim2SF v) as [sv|sv| |sv mv ev];
    try (split; reflexivity); cbn; try discriminate;
    try (destruct sa, sv; cbn; discriminate).
Qed.

Lemma fold_add_finite_inv (vs : list float) (a : float) :
  isFinite (fold_left PrimFloat.add vs a) = true ->
  isFinite a = true /\ Forall (fun v => isFinite v = true) vs.
Proof.
  revert a. induction vs as [|v vs IH]; intros a Hfin; cbn in *.
  - split; [exact Hfin | constructor].
  - destruct (IH _ Hfin) as [Hav Hvs].
    destruct (isFinite_add_inv _ _ Hav) as [Ha Hv].
    split; [exact Ha | constructor; assumption].
Qed.

(** Adding [snap v] or [v] makes no difference beyond the sign of a zero. *)
Lemma same_number_add (a a' v : float) :
  same_number a a' -> isFinite v = true ->
  same_number (PrimFloat.add a (snap v)) (PrimFloat.add a' v).
Proof.
  intros [->|[Ha Ha']] Hv.
  - unfold snap. rewrite Hv. cbn.
    destruct (isZero v) eqn:Hz; cbn; [|left; reflexivity].
    unfold same_number, isZero in *. rewrite !add_spec.
    change (Prim2SF 0) with (S754_zero false).
    destruct (Prim2SF v) as [sv|sv| |sv mv ev] eqn:Ev; try discriminate.
    destruct (Prim2SF a') as [sa|sa| |sa ma ea] eqn:Ea.
    + right. destruct sa, sv; cbn; split; reflexivity.
    + left. apply Prim2SF_inj. rewrite !add_spec, Ev, Ea. reflexivity.
    + left. apply Prim2SF_inj. rewrite !add_spec, Ev, Ea. reflexivity.
    + left. apply Prim2SF_inj. rewrite !add_spec, Ev, Ea. reflexivity.
  - unfold snap. rewrite Hv. cbn. unfold same_number, isZero, isFinite in *.
    destruct (Prim2SF a) as [sa|sa| |sa ma ea] eqn:Ea; try discriminate.
    destruct (Prim2SF a') as [sa'|sa'| |sa' ma' ea'] eqn:Ea'; try discriminate.
    destruct (Prim2SF v) as [sv|sv| |sv mv ev] eqn:Ev; try discriminate; cbn.
    + right. rewrite !add_spec, Ea, Ea'.
      change (Prim2SF 0) with (S754_zero false). rewrite Ev.
      destruct sa, sa', sv; cbn; split; reflexivity.
    + left. apply Prim2SF_inj. rewrite !add_spec, Ea, Ea', Ev. reflexivity.
Qed.

Lemma same_number_fold (vs : list float) (a a' : float) :
  same_number a a' -> Forall (fun v => isFinite v = true) vs ->
  same_number (fold_left (fun a v => PrimFloat.add a (snap v)) vs a)
              (fold_left PrimFloat.add vs a').
Proof.
  intros Ha Hvs. revert a a' Ha.
  induction Hvs as [|v vs Hv _ IH]; intros a a' Ha; cbn; [exact Ha|].
  apply IH, same_number_add; assumption.
Qed.

Lemma SFeqb_refl (x : spec_float) :
  match x with S754_zero _ | S754_finite _ _ _ => true | _ => false end = true ->
  SFeqb x x = true.
Proof.
  destruct x as [s|s| |s m e]; try discriminate; intros _; [reflexivity|].
  unfold SFeqb, SFcompare.
  rewrite Z.compare_refl, Pos.compare_cont_refl. destruct s; reflexivity.
Qed.

(** [==] on numbers does not tell the two zeros apart. *)
Lemma same_number_eqb (x y : float) :
  same_number x y -> isFinite y = true -> PrimFloat.eqb x y = true.
Proof.
  intros [->|[Hx Hy]] Hfin; rewrite FloatAxioms.eqb_spec.
  - apply SFeqb_refl. exact Hfin.
  - unfold isZero in *.
    destruct (Prim2SF x); try discriminate. destruct (Prim2SF y); try discriminate.
    reflexivity.
Qed.

Lemma same_number_finite (x y : float) :
  same_number x y -> isFinite y = true -> isFinite x = true.
Proof.
  intros [->|[Hx _]] Hfin; [exact Hfin|].
  unfold isZero, isFinite in *. destruct (Prim2SF x); try discriminate. reflexivity.
Qed.

Lemma same_number_snap (x y : float) :
  same_number x y -> isFinite y = true -> same_number (snap x) y.
Proof.
  intros Hxy Hfin. pose proof (same_number_finite _ _ Hxy Hfin) as Hx.
  unfold snap. rewrite Hx. cbn. destruct (isZero x) eqn:Hz; cbn; [|exact Hxy].
  right. split; [reflexivity|].
  destruct Hxy as [<-|[_ Hy]]; assumption.
Qed.

(** The running total of [homomorphicSum] over encoded numbers. *)
Lemma total_of_numbers (evs : list (float * float)) (pk : string) (a : float) :
  fold_left (fun acc cipher => add acc (decryptValue cipher ""))
            (map (fun e => encryptValue (Num (fst e)) pk (snd e)) evs) (Num a)
  = Num (fold_left (fun a v => PrimFloat.add a (snap v)) (map fst evs) a).
Proof.
  revert a. induction evs as [|[v t] evs IH]; intros a; cbn [map fold_left fst snd].
  - reflexivity.
  - rewrite decrypt_encrypt_number, add_numbers. apply IH.
Qed.

(** C1 (amended): for every list of numbers v1..vN, each encoded at its own
    instant, whose sum v1 + ... + vN (computed from 0, left to right, in
    binary64) is finite, decoding the aggregate of the encodings gives a
    number that is that sum (up to the sign of a zero): the two are equal
    for [===]. *)
Theorem codec_homomorphism_finite (evs : list (float * float)) (pk : string)
  (now : float) :
  isFinite (sum (map fst evs)) = true ->
  exists r,
    decryptValue
      (homomorphicSum (map (fun e => encryptValue (Num (fst e)) pk (snd e)) evs) now)
      ""
    = Num r
    /\ same_number r (sum (map fst evs))
    /\ strict_equals (Num r) (Num (sum (map fst evs))) = true.
Proof.
  intros Hfin. unfold homomorphicSum. cbv zeta.
  rewrite (total_of_numbers evs pk 0), decrypt_number.
  destruct (fold_add_finite_inv _ _ Hfin) as [_ Hvs].
  eexists. split; [reflexivity|].
  assert (Hsame : same_number
                    (snap (fold_left (fun a v => PrimFloat.add a (snap v))
                                     (map fst evs) 0%float))
                    (sum (map fst evs))).
  { apply same_number_snap; [|exact Hfin].
    apply same_number_fold; [left; reflexivity | exact Hvs]. }
  split; [exact Hsame|].
  cbn [strict_equals]. apply same_number_eqb; [exact Hsame | exact Hfin].
Qed.

(** *** What [decryptValue] makes of a blob that no [encryptValue] wrote *)

(** Text that is no JSON decodes to 0. *)
Lemma decryptValue_not_json (chars privateKey : string) :
  decryptValue (Buffer_from (other_text chars)) privateKey = Num 0.
Proof. reflexivity. Qed.

(** So does a document with no [value] property, or a falsy one. *)
Lemma decryptValue_no_value (doc : value) (privateKey : string) :
  (forall v, Get doc "value" = normal v -> ToBoolean v = false) ->
  decryptValue (Buffer_from (json_text doc)) privateKey = Num 0.
Proof.
  intros Hfalsy. unfold decryptValue. cbn.
  destruct (Get doc "value") as [v|e] eqn:Hget; cbn; [|reflexivity].
  unfold or. rewrite (Hfalsy v eq_refl). reflexivity.
Qed.

(** A truthy [value] property is returned as it is, whatever its type. *)
Lemma decryptValue_truthy_value (ps : list (string * value)) (privateKey : string) :
  ToBoolean (lookup_property "value" ps) = true ->
  decryptValue (Buffer_from (json_text (Obj ps))) privateKey
  = lookup_property "value" ps.
Proof. intros Htruthy. unfold decryptValue. cbn. unfold or. rewrite Htruthy. reflexivity. Qed.

(** C9 (the code at the failing input): the blob
    [{"value":"abc","encrypted":true,"timestamp":0}] is well-formed JSON with
    no numeric value field, and [decryptValue] returns the string "abc" for
    it, not 0. *)
Theorem decryptValue_returns_a_string (privateKey : string) :
  decryptValue
    (Buffer_from (JSON_stringify
       (Obj [("value", Str "abc"); ("encrypted", Bool true); ("timestamp", Num 0)])))
    privateKey
  = Str "abc".
Proof. reflexivity. Qed.

End CodecProperties.

(** C1, witness: 1.5, -0 and 2.25, whose sum is 3.75. *)
Lemma codec_homomorphism_finite_witness :
  sum (map fst [(1.5, 10); (-0, 11); (2.25, 12)]%float) = 3.75%float
  /\ exists r,
       Fhe.decryptValue
         (Fhe.homomorphicSum (host := example_host)
            (map (fun e => Fhe.encryptValue (JS.Num (fst e)) "pk" (snd e))
                 [(1.5, 10); (-0, 11); (2.25, 12)]%float) 13%float)
         ""
       = JS.Num r
       /\ same_number r (sum (map fst [(1.5, 10); (-0, 11); (2.25, 12)]%float))
       /\ JS.strict_equals
            (JS.Num r)
            (JS.Num (sum (map fst [(1.5, 10); (-0, 11); (2.25, 12)]%float))) = true.
Proof.
  split; [reflexivity|].
  apply (codec_homomorphism_finite (host := example_host)). reflexivity.
Defined.

(** C1, counterexample: two encodings of [Number.MAX_VALUE].  Their sum
    overflows to [Infinity], which [JSON.stringify] writes as [null], and the
    aggregate decodes to 0. *)
Lemma codec_homomorphism_overflow :
  Fhe.decryptValue
    (Fhe.homomorphicSum (host := example_host)
       [Fhe.encryptValue (JS.Num MAX_VALUE) "pk" 10%float;
        Fhe.encryptValue (JS.Num MAX_VALUE) "pk" 11%float] 12%float)
    ""
  = JS.Num 0
  /\ sum [MAX_VALUE; MAX_VALUE] = infinity
  /\ JS.strict_equals (JS.Num 0) (JS.Num (sum [MAX_VALUE; MAX_VALUE])) = false.
Proof. repeat split; reflexivity. Qed.

(** ** The event store (server/storage.ts) *)

Section StorageProperties.
Import JS Storage.

Lemma desc_total {A} (key : A -> Z) : Total (desc key).
Proof. intros a b. unfold desc. lia. Qed.

Lemma desc_trans {A} (key : A -> Z) : Transitive (desc key).
Proof. intros a b c. unfold desc. lia. Qed.

#[local] Existing Instances desc_total desc_trans.

Lemma getOriginByToken_None (d : Database) (t : string) :
  Forall (fun o => token o <> t) (origins d) -> getOriginByToken d t = None.
Proof.
  intros Hno. unfold getOriginByToken.
  induction Hno as [|o os Hne _ IH]; [reflexivity|].
  rewrite filter_cons. destruct (decide (token o = t)) as [Heq|_]; [contradiction|].
  exact IH.
Qed.

Lemma getEventsByOrigin_no_events (d : Database) (oid : string) (limit : option nat) :
  Forall (fun e => originId e <> oid) (encryptedEvents d) ->
  getEventsByOrigin d oid limit = [].
Proof.
  intros Hno. unfold getEventsByOrigin.
  replace (filter _ (encryptedEvents d)) with (@nil EncryptedEvent).
  - cbn. apply take_nil.
  - symmetry. induction Hno as [|e es Hne _ IH]; [reflexivity|].
    rewrite filter_cons. destruct (decide (originId e = oid)) as [Heq|_]; [contradiction|].
    exact IH.
Qed.

(** C6 (amended): [getEventsByOrigin] returns events of the origin, newest
    first, at most [limit] of them, and they are the newest ones: the events
    left out are no newer than any returned.  When the limit argument is left
    out the bound is 100 items. *)
Theorem getEventsByOrigin_window (d : Database) (oid : string) (limit : option nat) :
  let window := getEventsByOrigin d oid limit in
  StronglySorted (desc timestamp) window
  /\ length window = Nat.min (default 100 limit) (length (events_of d oid))
  /\ (forall e, e ∈ window -> e ∈ encryptedEvents d /\ originId e = oid)
  /\ (exists older, window ++ older ≡ₚ events_of d oid
        /\ forall e e', e ∈ window -> e' ∈ older -> (timestamp e' <= timestamp e)%Z)
  /\ getEventsByOrigin d oid None = getEventsByOrigin d oid (Some 100).
Proof.
  cbn zeta. unfold getEventsByOrigin, orderBy_desc. fold (events_of d oid).
  set (n := default 100 limit).
  set (sorted := merge_sort (desc timestamp) (events_of d oid)).
  assert (Hsorted : StronglySorted (desc timestamp) (take n sorted ++ drop n sorted)).
  { rewrite take_drop. apply StronglySorted_merge_sort; apply _. }
  assert (Hperm : sorted ≡ₚ events_of d oid) by apply merge_sort_Permutation.
  assert (Hin : forall e, e ∈ take n sorted -> e ∈ encryptedEvents d /\ originId e = oid).
  { intros e He. apply elem_of_take in He as (i & He & _).
    apply list_elem_of_lookup_2 in He. rewrite Hperm in He.
    apply list_elem_of_filter in He. tauto. }
  split; [eapply StronglySorted_app_1_l, Hsorted|].
  split; [rewrite length_take, <- Hperm; reflexivity|].
  split; [exact Hin|].
  split; [|reflexivity].
  exists (drop n sorted). split; [rewrite take_drop; exact Hperm|].
  intros e e' He He'. exact (StronglySorted_app_1_elem_of _ _ _ _ _ Hsorted He He').
Qed.

End StorageProperties.

(** C6, counterexample: of 101 stored events a call without the limit
    argument returns 100, where a bound of 1000 returns all 101. *)
Lemma getEventsByOrigin_default_limit :
  length (Storage.getEventsByOrigin (busy_database 101) "o1" None) = 100
  /\ length (Storage.getEventsByOrigin (busy_database 101) "o1" (Some 1000)) = 101.
Proof. split; vm_compute; reflexivity. Qed.

(** ** The routes (server/routes.ts) *)

Section RoutesProperties.
Import JS Fhe Storage Routes.
Context `{host : Host}.

(** *** POST /api/collect *)

(** A body the schema rejects is answered 400; nothing is stored. *)
Lemma collect_invalid_body (accepts : query -> bool) (req_body : value) (e : error)
  (now : float) (st : Server) :
  schema_parse req_body = throw e ->
  collect accepts req_body now st = caught st.
Proof. intros Hparse. unfold collect. rewrite Hparse. reflexivity. Qed.

(** So is a request whose token the database refuses to look up. *)
Lemma collect_lookup_rejected (accepts : query -> bool) (req_body : value)
  (body : CollectBody) (now : float) (st : Server) :
  schema_parse req_body = normal body ->
  accepts (select_origin_by_token (body_originToken body)) = false ->
  collect accepts req_body now st = caught st.
Proof.
  intros Hparse Hrej. unfold collect, await. rewrite Hparse. cbn. rewrite Hrej.
  reflexivity.
Qed.

(** C3 (amended): a collect request that passes the schema, whose token the
    database looks up, and whose [originToken] is the token of no stored
    origin is answered 401; the server is left as it was: no event is
    stored, no recomputation (hence no broadcast) is scheduled and nothing
    is written to a stream or logged. *)
Theorem collect_unknown_token (accepts : query -> bool) (req_body : value)
  (body : CollectBody) (now : float) (st : Server) :
  schema_parse req_body = normal body ->
  accepts (select_origin_by_token (body_originToken body)) = true ->
  Forall (fun o => token o <> body_originToken body) (origins (db st)) ->
  collect accepts req_body now st = (st, (401, error_body "Invalid origin token")).
Proof.
  intros Hparse Hacc Hno. unfold collect, await. rewrite Hparse. cbn. rewrite Hacc. cbn.
  rewrite (getOriginByToken_None _ _ Hno). reflexivity.
Qed.

(** What the handler does with an accepted request. *)
Lemma collect_accepts (accepts : query -> bool) (req_body : value) (body : CollectBody)
  (now : float) (st : Server) (origin : Origin) (key : FheKey) :
  schema_parse req_body = normal body ->
  accepts (select_origin_by_token (body_originToken body)) = true ->
  getOriginByToken (db st) (body_originToken body) = Some origin ->
  accepts (select_active_key (origin_id origin)) = true ->
  getActiveKey (db st) (origin_id origin) = Some key ->
  accepts (insert_encrypted_event (collected_event body origin key now)) = true ->
  collect accepts req_body now st
  = (setImmediate (recompute origin)
       (set_db {| origins := origins (db st);
                  fheKeys := fheKeys (db st);
                  encryptedEvents :=
                    encryptedEvents (db st)
                    ++ [{| originId := origin_id origin;
                           timestamp := Date_parse (body_timestamp body);
                           page := body_page body;
                           eventType := body_eventType body;
                           cipherBlob := encryptValue (or (body_value body) (Num 1))
                                           (publicKey key) now;
                           metadata := or (body_metadata body) Null |}] |} st),
     (202, accepted_body)).
Proof.
  intros Hparse Hacc1 Horigin Hacc2 Hkey Hacc3. unfold collect, await.
  rewrite Hparse. cbn. rewrite Hacc1. cbn. rewrite Horigin, Hacc2. cbn.
  rewrite Hkey, Hacc3. reflexivity.
Qed.

(** A row the database refuses is answered 400; nothing is stored or
    scheduled. *)
Lemma collect_insert_rejected (accepts : query -> bool) (req_body : value)
  (body : CollectBody) (now : float) (st : Server) (origin : Origin) (key : FheKey) :
  schema_parse req_body = normal body ->
  accepts (select_origin_by_token (body_originToken body)) = true ->
  getOriginByToken (db st) (body_originToken body) = Some origin ->
  accepts (select_active_key (origin_id origin)) = true ->
  getActiveKey (db st) (origin_id origin) = Some key ->
  accepts (insert_encrypted_event (collected_event body origin key now)) = false ->
  collect accepts req_body now st = caught st.
Proof.
  intros Hparse Hacc1 Horigin Hacc2 Hkey Hrej. unfold collect, await.
  rewrite Hparse. cbn. rewrite Hacc1. cbn. rewrite Horigin, Hacc2. cbn.
  rewrite Hkey, Hrej. reflexivity.
Qed.

(** The [value] of a body that passed the schema is absent or a number that
    is not NaN (it may be infinite). *)
Lemma schema_parse_value (req_body : value) (body : CollectBody) :
  schema_parse req_body = normal body ->
  body_value body = Undefined \/ exists x, body_value body = Num x /\ isNaN x = false.
Proof.
  unfold schema_parse. destruct req_body as [| | | | |xs|ps]; try discriminate.
  destruct (lookup_property "originToken" ps); try discriminate.
  destruct (lookup_property "timestamp" ps) as [| | | |ts| |]; try discriminate.
  destruct (lookup_property "page" ps); try discriminate.
  destruct (lookup_property "eventType" ps) as [| | | |ty| |]; try discriminate.
  destruct (z_string_datetime ts && z_enum_eventType ty); cbn; try discriminate.
  destruct (lookup_property "value" ps) as [| | |x| | |] eqn:Hv; cbn; try discriminate.
  - intros [= <-]. left. reflexivity.
  - destruct (isNaN x) eqn:Hnan; cbn; try discriminate.
    intros [= <-]. right. exists x. cbn. split; [reflexivity | exact Hnan].
Qed.

Lemma or_falsy_number (x : float) (d : value) : isZero x = true -> or (Num x) d = d.
Proof. intros Hz. unfold or, ToBoolean. rewrite Hz. reflexivity. Qed.

Lemma or_truthy_number (x : float) (d : value) :
  isZero x = false -> isNaN x = false -> or (Num x) d = Num x.
Proof. intros Hz Hn. unfold or, ToBoolean. rewrite Hz, Hn. reflexivity. Qed.

Lemma isFinite_not_NaN (x : float) : isFinite x = true -> isNaN x = false.
Proof. unfold isNaN, isFinite. destruct (Prim2SF x); try discriminate; reflexivity. Qed.

(** C10 (amended): a collect request that passes the schema, names a known
    origin with an active key, and whose three queries the database carries
    out is accepted and appends one event to the store.  When the request
    has no [value], or a [value] that is a zero, the stored event decodes to
    1; when its [value] is finite and not a zero the stored event decodes to
    that value.  So the stored event of such a request whose [value] is
    absent or finite never decodes to a zero. *)
Theorem collect_stores_one_for_no_value (accepts : query -> bool) (req_body : value)
  (body : CollectBody) (now : float) (st : Server) (origin : Origin) (key : FheKey) :
  schema_parse req_body = normal body ->
  accepts (select_origin_by_token (body_originToken body)) = true ->
  getOriginByToken (db st) (body_originToken body) = Some origin ->
  accepts (select_active_key (origin_id origin)) = true ->
  getActiveKey (db st) (origin_id origin) = Some key ->
  accepts (insert_encrypted_event (collected_event body origin key now)) = true ->
  exists event,
    snd (collect accepts req_body now st) = (202, accepted_body)
    /\ encryptedEvents (db (fst (collect accepts req_body now st)))
       = encryptedEvents (db st) ++ [event]
    /\ (body_value body = Undefined -> decryptValue (cipherBlob event) "" = Num 1)
    /\ (forall x, body_value body = Num x -> isZero x = true ->
          decryptValue (cipherBlob event) "" = Num 1)
    /\ (forall x, body_value body = Num x -> isZero x = false -> isFinite x = true ->
          decryptValue (cipherBlob event) "" = Num x)
    /\ ((body_value body = Undefined \/
         exists x, body_value body = Num x /\ isFinite x = true) ->
        exists y, decryptValue (cipherBlob event) "" = Num y /\ isZero y = false).
Proof.
  intros Hparse Hacc1 Horigin Hacc2 Hkey Hacc3.
  rewrite (collect_accepts _ _ _ _ _ _ _ Hparse Hacc1 Horigin Hacc2 Hkey Hacc3).
  eexists. split; [reflexivity|]. split; [reflexivity|]. cbn [cipherBlob].
  unfold encryptValue.
  set (decoded := decryptValue _ "").
  assert (Hundef : body_value body = Undefined -> decoded = Num 1).
  { subst decoded. intros ->. change (or Undefined (Num 1)) with (Num 1).
    rewrite decrypt_number. reflexivity. }
  assert (Hzero : forall x, body_value body = Num x -> isZero x = true ->
                            decoded = Num 1).
  { subst decoded. intros x -> Hz.
    rewrite (or_falsy_number x _ Hz), decrypt_number. reflexivity. }
  assert (Hfin : forall x, body_value body = Num x -> isZero x = false ->
                           isFinite x = true -> decoded = Num x).
  { subst decoded. intros x -> Hz Hf.
    rewrite (or_truthy_number x _ Hz (isFinite_not_NaN x Hf)), decrypt_number.
    unfold snap. rewrite Hf, Hz. reflexivity. }
  split; [exact Hundef|]. split; [exact Hzero|]. split; [exact Hfin|].
  intros [Hu|(x & Hx & Hf)].
  - exists 1%float. split; [apply Hundef, Hu | reflexivity].
  - destruct (isZero x) eqn:Hz.
    + exists 1%float. split; [apply (Hzero x Hx Hz) | reflexivity].
    + exists x. split; [apply (Hfin x Hx Hz Hf) | exact Hz].
Qed.

(** *** GET /api/metrics/:originId *)


(** Without a session event in the window the guard [sessions > 0] keeps
    both quotients out: avgSession and bounceRate are 0 whatever the page
    views. *)
Lemma metrics_without_sessions (originId : string) (now : float) (st : Server)
  (m : Metrics) :
  ofType "session" (getEventsByOrigin (db st) originId (Some 1000)) = [] ->
  get_metrics originId now st = (200, metrics_body m) ->
  sessions m = Num 0 /\ avgSession m = Num 0 /\ bounceRate m = Num 0.
Proof.
  intros Hnone. unfold get_metrics. rewrite Hnone. cbn [length Nat.ltb Nat.leb].
  intros [= <-]. cbn. repeat split; reflexivity.
Qed.

(** C2 (the code at the failing input): with one session event of value 1
    and no page view stored for the origin, the metrics route answers 200 (no
    error is raised) with sessions 1, pageviews 0, avgSession 0 and a
    bounceRate that is NaN, not 0. *)
Theorem bounceRate_is_NaN_without_pageviews (now t : float) (ts : Z) :
  get_metrics "o1" now
    {| db := {| origins := [example_origin]; fheKeys := [example_key];
                encryptedEvents := [stored_event "session" 1 ts t] |};
       sseClients := ∅; immediates := []; log := [] |}
  = (200, metrics_body {| visitors := Num 0; pageviews := Num 0; sessions := Num 1;
                          avgSession := Num 0; bounceRate := Num nan;
                          conversions := Num 0 |}).
Proof. vm_compute. reflexivity. Qed.

End RoutesProperties.

(** C3, witness: the example server knows the token [fhe_sk_0001] only; a
    request with the token [fhe_sk_ffff] is answered 401 and changes nothing. *)
Lemma collect_unknown_token_witness :
  Routes.collect (host := example_host) postgres
    (example_body "fhe_sk_ffff" "pageview" (JS.Num 1)) 0%float example_server
  = (example_server, (401, Routes.error_body "Invalid origin token")).
Proof.
  apply (collect_unknown_token (host := example_host) postgres
           (example_body "fhe_sk_ffff" "pageview" (JS.Num 1))
           {| Routes.body_originToken := "fhe_sk_ffff";
              Routes.body_timestamp := "2025-01-01T00:00:00.000Z";
              Routes.body_page := "/";
              Routes.body_eventType := "pageview";
              Routes.body_value := JS.Num 1;
              Routes.body_metadata := JS.Undefined |}).
  - reflexivity.
  - reflexivity.
  - apply (bool_decide_unpack _). vm_compute. exact I.
Defined.

(** C3, counterexample: two requests whose token no stored origin has and
    that are answered 400, not 401.  The first has the event type [click],
    which the schema rejects; the token of the second holds a NUL character,
    which the database refuses to look up.  Both end in the [catch] of the
    handler, which logs the error. *)
Lemma collect_unknown_token_bad_request :
  Routes.collect (host := example_host) postgres
    (example_body "fhe_sk_ffff" "click" (JS.Num 1)) 0%float example_server
  = (Routes.emit (Routes.ConsoleError "[API] Collect error:") example_server,
     (400, Routes.error_body "Invalid request"))
  /\ Routes.collect (host := example_host) postgres
       (example_body NUL_token "pageview" (JS.Num 1)) 0%float example_server
     = (Routes.emit (Routes.ConsoleError "[API] Collect error:") example_server,
        (400, Routes.error_body "Invalid request"))
  /\ Storage.getOriginByToken (Routes.db example_server) "fhe_sk_ffff" = None
  /\ Storage.getOriginByToken (Routes.db example_server) NUL_token = None.
Proof. repeat split; reflexivity. Qed.

(** C10, witness: a page view sent without a [value] is stored as 1. *)
Lemma collect_stores_one_for_no_value_witness :
  exists event,
    snd (Routes.collect (host := example_host) postgres
           (example_body "fhe_sk_0001" "pageview" JS.Undefined) 0%float example_server)
    = (202, Routes.accepted_body)
    /\ Storage.encryptedEvents
         (Routes.db (fst (Routes.collect (host := example_host) postgres
                            (example_body "fhe_sk_0001" "pageview" JS.Undefined)
                            0%float example_server)))
       = [event]
    /\ Fhe.decryptValue (Storage.cipherBlob event) "" = JS.Num 1.
Proof.
  destruct (collect_stores_one_for_no_value (host := example_host) postgres
              (example_body "fhe_sk_0001" "pageview" JS.Undefined)
              {| Routes.body_originToken := "fhe_sk_0001";
                 Routes.body_timestamp := "2025-01-01T00:00:00.000Z";
                 Routes.body_page := "/";
                 Routes.body_eventType := "pageview";
                 Routes.body_value := JS.Undefined;
                 Routes.body_metadata := JS.Undefined |}
              0%float example_server example_origin example_key
              eq_refl eq_refl eq_refl eq_refl eq_refl eq_refl)
    as (event & Hreply & Hstored & Hundef & _).
  exists event. split; [exact Hreply|]. split; [exact Hstored|].
  apply Hundef. reflexivity.
Defined.

(** C10, counterexample: the request body [{..., "value": 1e999}] carries the
    number [Infinity]; the request is accepted (202), the event is stored
    with its value written as [null], and the stored event decodes to 0. *)
Lemma collect_stores_zero_for_infinity :
  snd (Routes.collect (host := example_host) postgres
         (example_body "fhe_sk_0001" "conversion" (JS.Num infinity)) 0%float
         example_server)
  = (202, Routes.accepted_body)
  /\ map (fun e => Fhe.decryptValue (Storage.cipherBlob e) "")
         (Storage.encryptedEvents
            (Routes.db (fst (Routes.collect (host := example_host) postgres
                               (example_body "fhe_sk_0001" "conversion" (JS.Num infinity))
                               0%float example_server))))
     = [JS.Num 0].
Proof. split; reflexivity. Qed.


(** ** The live subscription broker (server/routes.ts) *)

Section BrokerProperties.
Import JS Storage Routes.

Lemma filter_ext_in {A} (P Q : A -> Prop) `{!forall x, Decision (P x)}
  `{!forall x, Decision (Q x)} (l : list A) :
  (forall x, x ∈ l -> (P x <-> Q x)) -> filter P l = filter Q l.
Proof.
  induction l as [|x l IH]; intros Hiff; [reflexivity|].
  rewrite !filter_cons.
  rewrite IH by (intros y Hy; apply Hiff; right; exact Hy).
  pose proof (Hiff x (list_elem_of_here x l)) as Hx.
  destruct (decide (P x)), (decide (Q x)); tauto.
Qed.

Lemma filter_all {A} (P : A -> Prop) `{!forall x, Decision (P x)} (l : list A) :
  (forall x, x ∈ l -> P x) -> filter P l = l.
Proof.
  induction l as [|x l IH]; intros Hall; [reflexivity|].
  rewrite filter_cons_True by (apply Hall; left).
  f_equal. apply IH. intros y Hy. apply Hall. right. exact Hy.
Qed.

(** One pass of the [forEach] of [broadcastMetricsUpdate]. *)
Lemma send_updates (writable : Response -> bool) (originId : string) (data : Text)
  (clients : list Response) (st : Server) :
  let st' := fold_left (send_update writable originId data) clients st in
  db st' = db st
  /\ immediates st' = immediates st
  /\ log st' = log st ++ delivery writable data clients
  /\ sseClients st' = alter (pruned writable clients) originId (sseClients st).
Proof.
  cbn zeta. revert st. induction clients as [|c cs IH]; intros st; cbn [fold_left].
  - repeat split; [by rewrite app_nil_r|].
    apply map_eq. intros o. destruct (decide (o = originId)) as [->|Hne].
    + rewrite lookup_alter_eq. by destruct (sseClients st !! originId).
    + by rewrite lookup_alter_ne.
  - destruct (IH (send_update writable originId data st c)) as (Hdb & Him & Hlog & Hmap).
    rewrite Hdb, Him, Hlog, Hmap.
    unfold delivery, pruned, send_update, write. cbn [flat_map fold_left].
    destruct (writable c); cbn.
    + repeat split. by rewrite <- app_assoc.
    + repeat split; [by rewrite <- !app_assoc|].
      apply map_eq. intros o. destruct (decide (o = originId)) as [->|Hne].
      * rewrite !lookup_alter_eq. by destruct (sseClients st !! originId).
      * by rewrite !lookup_alter_ne.
Qed.

Lemma pruned_filter (writable : Response -> bool) (visited set : list Response) :
  pruned writable visited set = filter (fun y => y ∉ throwing writable visited) set.
Proof.
  revert set. induction visited as [|c cs IH]; intros set.
  - symmetry. apply filter_all. intros y _. apply not_elem_of_nil.
  - change (pruned writable (c :: cs) set)
      with (pruned writable cs (if writable c then set else Set_delete c set)).
    unfold throwing. rewrite filter_cons.
    destruct (writable c) eqn:Hc.
    + rewrite decide_False by discriminate. apply IH.
    + rewrite decide_True by reflexivity. rewrite IH. unfold Set_delete.
      rewrite list_filter_filter. apply filter_ext_in. intros y _.
      rewrite not_elem_of_cons. tauto.
Qed.

(** After the pass the Set holds the streams that took the write. *)
Lemma pruned_self (writable : Response -> bool) (clients : list Response) :
  pruned writable clients clients = filter (fun c => writable c = true) clients.
Proof.
  rewrite pruned_filter. apply filter_ext_in. intros y Hy.
  unfold throwing. rewrite list_elem_of_filter.
  destruct (writable y); split; intros; try tauto; try discriminate.
  intros [? _]. discriminate.
Qed.

Lemma serialized_delivery (writable : Response -> bool) (data : Text)
  (clients : list Response) :
  serialized (delivery writable data clients) = [].
Proof.
  induction clients as [|c cs IH]; [reflexivity|].
  unfold delivery. cbn [flat_map]. fold (delivery writable data cs).
  unfold serialized in *. rewrite omap_app, IH.
  destruct (writable c); reflexivity.
Qed.

Lemma chunks_to_absent (writable : Response -> bool) (data : Text)
  (clients : list Response) (client : Response) :
  ~ (client ∈ clients /\ writable client = true) ->
  chunks_to client (delivery writable data clients) = [].
Proof.
  induction clients as [|c cs IH]; intros Hno; [reflexivity|].
  unfold delivery. cbn [flat_map]. fold (delivery writable data cs).
  unfold chunks_to in *. rewrite omap_app, IH.
  - destruct (writable c) eqn:Hc; cbn; [|reflexivity].
    destruct (decide (c = client)) as [->|]; [|reflexivity].
    exfalso. apply Hno. split; [left | exact Hc].
  - intros [Hin Hw]. apply Hno. split; [right; exact Hin | exact Hw].
Qed.

Lemma chunks_to_present (writable : Response -> bool) (data : Text)
  (clients : list Response) (client : Response) :
  NoDup clients -> client ∈ clients -> writable client = true ->
  chunks_to client (delivery writable data clients) = [sse_data data].
Proof.
  induction 1 as [|c cs Hnotin Hnd IH]; intros Hin Hw; [by apply elem_of_nil in Hin|].
  unfold delivery. cbn [flat_map]. fold (delivery writable data cs).
  unfold chunks_to in *. rewrite omap_app.
  apply elem_of_cons in Hin as [->|Hin].
  - rewrite Hw. cbn. rewrite decide_True by reflexivity.
    fold (chunks_to c (delivery writable data cs)).
    rewrite chunks_to_absent; [reflexivity | tauto].
  - rewrite IH by assumption.
    destruct (writable c) eqn:Hc; cbn; [|reflexivity].
    rewrite decide_False; [reflexivity | intros ->; contradiction].
Qed.

(** C4: when the origin has a registered Set of streams,
    [broadcastMetricsUpdate] returns normally, whichever writes throw; what it
    adds to the log holds one serialisation, that of the snapshot; every
    registered stream on which the write goes through is written that
    serialisation, once, and nothing is written to any other stream; the
    streams on which the write threw are gone from the Set, the others stay in
    their order; the tables and the scheduled jobs are not touched. *)
Theorem broadcast_reaches_every_open_stream (writable : Response -> bool)
  (originId : string) (metrics : value) (st : Server) (clients : list Response) :
  sseClients st !! originId = Some clients ->
  NoDup clients ->
  exists st' added,
    broadcastMetricsUpdate writable originId metrics st = normal st'
    /\ log st' = log st ++ added
    /\ serialized added = [metrics]
    /\ (forall c, c ∈ clients -> writable c = true ->
          chunks_to c added = [sse_data (JSON_stringify metrics)])
    /\ (forall c, ~ (c ∈ clients /\ writable c = true) -> chunks_to c added = [])
    /\ sseClients st'
       = <[originId := filter (fun c => writable c = true) clients]> (sseClients st)
    /\ db st' = db st
    /\ immediates st' = immediates st.
Proof.
  intros Hreg Hnd. unfold broadcastMetricsUpdate. rewrite Hreg.
  set (data := JSON_stringify metrics).
  destruct (send_updates writable originId data clients (emit (Stringified metrics) st))
    as (Hdb & Him & Hlog & Hmap).
  eexists. exists (Stringified metrics :: delivery writable data clients).
  split; [reflexivity|]. repeat split.
  - rewrite Hlog. cbn. rewrite <- app_assoc. reflexivity.
  - cbn. fold (serialized (delivery writable data clients)).
    rewrite serialized_delivery. reflexivity.
  - intros c Hin Hw. cbn. apply chunks_to_present; assumption.
  - intros c Hno. cbn. apply chunks_to_absent. exact Hno.
  - rewrite Hmap. cbn. apply map_eq. intros o.
    destruct (decide (o = originId)) as [->|Hne].
    + rewrite lookup_alter_eq, lookup_insert_eq, Hreg. cbn. by rewrite pruned_self.
    + by rewrite lookup_alter_ne, lookup_insert_ne.
  - exact Hdb.
  - exact Him.
Qed.


End BrokerProperties.

(** C4, witness: streams 1, 2 and 3 are registered for the origin and the
    write on stream 2 throws. *)
Lemma broadcast_reaches_every_open_stream_witness :
  exists st' added,
    Routes.broadcastMetricsUpdate (fun c => negb (Nat.eqb c 2)) "o1"
      (JS.Obj [("pageviews", JS.Num 1)]) example_server = JS.normal st'
    /\ Routes.log st' = Routes.log example_server ++ added
    /\ serialized added = [JS.Obj [("pageviews", JS.Num 1)]]
    /\ chunks_to 1 added
       = [Routes.sse_data (JS.JSON_stringify (JS.Obj [("pageviews", JS.Num 1)]))]
    /\ chunks_to 2 added = []
    /\ chunks_to 3 added
       = [Routes.sse_data (JS.JSON_stringify (JS.Obj [("pageviews", JS.Num 1)]))]
    /\ Routes.sseClients st' !! "o1" = Some [1; 3].
Proof.
  destruct (broadcast_reaches_every_open_stream (fun c => negb (Nat.eqb c 2)) "o1"
              (JS.Obj [("pageviews", JS.Num 1)]) example_server [1; 2; 3])
    as (st' & added & Hret & Hlog & Hser & Hopen & Hclosed & Hset & _).
  - reflexivity.
  - apply (bool_decide_unpack _). vm_compute. exact I.
  - exists st', added.
    split; [exact Hret|]. split; [exact Hlog|]. split; [exact Hser|].
    split; [apply Hopen; [apply (bool_decide_unpack _); vm_compute; exact I | reflexivity]|].
    split; [apply Hclosed; intros [_ Hw]; discriminate Hw|].
    split; [apply Hopen; [apply (bool_decide_unpack _); vm_compute; exact I | reflexivity]|].
    rewrite Hset. reflexivity.
Defined.

(** ** The batching agent (public/fhe-analytics.js) *)

Section ClientProperties.
Import JS Client.

Lemma armed_clear (ts : list (nat * Z)) (id : nat) :
  (forall t, t ∈ ts -> Some id = Some (fst t)) ->
  filter (fun t : nat * Z => fst t <> id) ts = [].
Proof.
  intros Harmed. induction ts as [|t ts IH]; [reflexivity|].
  rewrite filter_cons_False.
  - apply IH. intros t' Ht'. apply Harmed. right. exact Ht'.
  - intros Hne. apply Hne. specialize (Harmed t (list_elem_of_here _ _)).
    congruence.
Qed.

Lemma armed_no_timer (w : Window) :
  armed w -> batchTimer (this w) = None -> timers w = [].
Proof.
  intros Harmed Hnone. destruct (timers w) as [|t ts] eqn:Hts; [reflexivity|].
  specialize (Harmed t). rewrite Hts, Hnone in Harmed.
  discriminate Harmed. left.
Qed.

Lemma no_timers_armed (w : Window) : timers w = [] -> armed w.
Proof. intros Hnone t Ht. rewrite Hnone in Ht. by apply elem_of_nil in Ht. Qed.

(** Below the batch size: the event is queued and the timer restarted. *)
Lemma queueEvent_below (doc : Page) (ty : string) (v : JS.value)
  (md : list (string * JS.value)) (w : Window) :
  armed w ->
  length (eventQueue (this w)) + 1 < CONFIG.batchSize ->
  queueEvent doc ty v md w
  = {| this := {| this_originToken := this_originToken (this w);
                  eventQueue := eventQueue (this w) ++ [queued doc ty v md w];
                  sessionId := sessionId (this w);
                  batchTimer := Some (next_timer w) |};
       now := now w;
       timers := [(next_timer w, (now w + CONFIG.batchTimeout)%Z)];
       next_timer := S (next_timer w);
       dispatched := dispatched w |}.
Proof.
  intros Harmed Hlen. unfold queueEvent. fold (queued doc ty v md w).
  assert (Hclear : forall id, batchTimer (this w) = Some id ->
            filter (fun t : nat * Z => fst t <> id) (timers w) = []).
  { intros id Hbt. apply armed_clear. intros t Ht. rewrite <- Hbt. apply Harmed, Ht. }
  cbn -[Nat.leb CONFIG.batchSize].
  destruct (batchTimer (this w)) as [id|] eqn:Hbt; cbn -[Nat.leb CONFIG.batchSize];
    rewrite length_app; cbn -[Nat.leb CONFIG.batchSize];
    (destruct (Nat.leb_spec CONFIG.batchSize (length (eventQueue (this w)) + 1))
       as [Hge|_]; [lia|]).
  - rewrite (Hclear id eq_refl), Hbt. reflexivity.
  - rewrite (armed_no_timer w Harmed Hbt). reflexivity.
Qed.

(** At the batch size: the queue is flushed at once and no timer is left. *)
Lemma queueEvent_full (doc : Page) (ty : string) (v : JS.value)
  (md : list (string * JS.value)) (w : Window) :
  armed w ->
  CONFIG.batchSize <= length (eventQueue (this w)) + 1 ->
  queueEvent doc ty v md w
  = {| this := {| this_originToken := this_originToken (this w);
                  eventQueue := [];
                  sessionId := sessionId (this w);
                  batchTimer := None |};
       now := now w;
       timers := [];
       next_timer := next_timer w;
       dispatched := dispatched w ++ [eventQueue (this w) ++ [queued doc ty v md w]] |}.
Proof.
  intros Harmed Hlen. unfold queueEvent. fold (queued doc ty v md w).
  assert (Hclear : forall id, batchTimer (this w) = Some id ->
            filter (fun t : nat * Z => fst t <> id) (timers w) = []).
  { intros id Hbt. apply armed_clear. intros t Ht. rewrite <- Hbt. apply Harmed, Ht. }
  cbn -[Nat.leb CONFIG.batchSize].
  destruct (batchTimer (this w)) as [id|] eqn:Hbt; cbn -[Nat.leb CONFIG.batchSize];
    rewrite length_app; cbn -[Nat.leb CONFIG.batchSize];
    (destruct (Nat.leb_spec CONFIG.batchSize (length (eventQueue (this w)) + 1))
       as [_|Hlt]; [|lia]);
    unfold flush; cbn; rewrite length_app; cbn;
    (destruct (decide (length (eventQueue (this w)) + 1 = 0)); [lia|]); cbn.
  - rewrite ?Hbt. cbn. rewrite ?Hbt, (Hclear id eq_refl). reflexivity.
  - rewrite ?Hbt. cbn. rewrite ?Hbt, (armed_no_timer w Harmed Hbt). reflexivity.
Qed.

(** [queueEvent] keeps the invariant. *)
Lemma armed_queueEvent (doc : Page) (ty : string) (v : JS.value)
  (md : list (string * JS.value)) (w : Window) :
  armed w -> armed (queueEvent doc ty v md w).
Proof.
  intros Harmed.
  destruct (le_lt_dec CONFIG.batchSize (length (eventQueue (this w)) + 1)) as [Hge|Hlt].
  - rewrite queueEvent_full by assumption. intros t Ht. by apply elem_of_nil in Ht.
  - rewrite queueEvent_below by assumption. intros t Ht.
    apply list_elem_of_singleton in Ht as ->. reflexivity.
Qed.

Lemma next_due_none (deadline : Z) (ts : list (nat * Z)) :
  (forall t, t ∈ ts -> (deadline < snd t)%Z) -> next_due deadline ts = None.
Proof.
  induction ts as [|t ts IH]; intros Hlate; [reflexivity|]. cbn.
  rewrite IH by (intros t' Ht'; apply Hlate; right; exact Ht').
  destruct (Z.leb_spec (snd t) deadline) as [Hle|_]; [|reflexivity].
  specialize (Hlate t (list_elem_of_here _ _)). lia.
Qed.

(** Time that passes before any timer is due only moves the clock. *)
Lemma elapse_idle (ms : Z) (w : Window) :
  (forall t, t ∈ timers w -> (now w + ms < snd t)%Z) ->
  elapse ms w
  = {| this := this w; now := (now w + ms)%Z; timers := timers w;
       next_timer := next_timer w; dispatched := dispatched w |}.
Proof.
  intros Hlate. unfold elapse.
  destruct (timers w) as [|t ts] eqn:Hts; cbn [length run_timers].
  - rewrite Hts. reflexivity.
  - rewrite Hts, (next_due_none _ _ Hlate). rewrite Hts. reflexivity.
Qed.

Lemma elapse_no_timers (ms : Z) (w : Window) :
  timers w = [] -> dispatched (elapse ms w) = dispatched w /\ timers (elapse ms w) = [].
Proof.
  intros Hnone. rewrite elapse_idle.
  - split; [reflexivity | exact Hnone].
  - rewrite Hnone. intros t Ht. by apply elem_of_nil in Ht.
Qed.

Lemma track_then_wait (doc : Page) (name : string) (md : list (string * JS.value))
  (ms : Z) (w : Window) :
  armed w ->
  length (eventQueue (this w)) + 1 < CONFIG.batchSize ->
  (0 <= ms < CONFIG.batchTimeout)%Z ->
  elapse ms (trackEvent doc name md w)
  = {| this := {| this_originToken := this_originToken (this w);
                  eventQueue := eventQueue (this w) ++ [tracked doc name md w];
                  sessionId := sessionId (this w);
                  batchTimer := Some (next_timer w) |};
       now := (now w + ms)%Z;
       timers := [(next_timer w, (now w + CONFIG.batchTimeout)%Z)];
       next_timer := S (next_timer w);
       dispatched := dispatched w |}.
Proof.
  intros Harmed Hlen Hms. unfold trackEvent. rewrite queueEvent_below by assumption.
  rewrite elapse_idle; [reflexivity|].
  cbn. intros t Ht. apply list_elem_of_singleton in Ht as ->. cbn. lia.
Qed.

Lemma after_track_then_wait (doc : Page) (name : string)
  (md : list (string * JS.value)) (ms : Z) (w : Window) :
  armed w ->
  length (eventQueue (this w)) + 1 < CONFIG.batchSize ->
  (0 <= ms < CONFIG.batchTimeout)%Z ->
  armed (elapse ms (trackEvent doc name md w))
  /\ eventQueue (this (elapse ms (trackEvent doc name md w)))
     = eventQueue (this w) ++ [tracked doc name md w]
  /\ dispatched (elapse ms (trackEvent doc name md w)) = dispatched w.
Proof.
  intros Harmed Hlen Hms. rewrite track_then_wait by assumption.
  split; [|split; reflexivity].
  intros t Ht. apply list_elem_of_singleton in Ht as ->. reflexivity.
Qed.

(** What one [track] does, from any state the agent can be in. *)
Lemma track_queues_then_flushes_or_rearms (doc : Page) (name : string)
  (md : list (string * JS.value)) (w : Window) :
  armed w ->
  let queue := eventQueue (this w) ++ [tracked doc name md w] in
  let w' := trackEvent doc name md w in
  (CONFIG.batchSize <= length queue ->
     dispatched w' = dispatched w ++ [queue]
     /\ eventQueue (this w') = [] /\ timers w' = [])
  /\ (length queue < CONFIG.batchSize ->
        dispatched w' = dispatched w
        /\ eventQueue (this w') = queue
        /\ timers w' = [(next_timer w, (now w + CONFIG.batchTimeout)%Z)]
        /\ batchTimer (this w') = Some (next_timer w)).
Proof.
  intros Harmed. cbn zeta. unfold trackEvent. rewrite length_app. cbn [length].
  split; intros Hlen.
  - rewrite queueEvent_full by assumption. repeat split.
  - rewrite queueEvent_below by assumption. repeat split.
Qed.

(** C5 (amended): from any state of the agent, a [track] appends its event to
    the queue and leaves no earlier timer pending; when the queue then holds
    5 events they are dispatched at once, as one batch, and otherwise one
    timer is pending, due 3000 ms later.  So when the queue is empty and no
    timer is pending at the first call, five calls of [track] of which the
    last comes no more than 100 ms after the first dispatch nothing before
    the fifth call and then exactly one batch, of the five events in order;
    afterwards the queue is empty, no timer is pending, and no passing of
    time dispatches anything more. *)
Theorem five_tracks_one_batch (doc : Page) (n1 n2 n3 n4 n5 : string)
  (m1 m2 m3 m4 m5 : list (string * JS.value)) (d1 d2 d3 d4 : Z) (w0 : Window) :
  eventQueue (this w0) = [] ->
  timers w0 = [] ->
  (0 <= d1)%Z -> (0 <= d2)%Z -> (0 <= d3)%Z -> (0 <= d4)%Z ->
  (d1 + d2 + d3 + d4 <= 100)%Z ->
  let w1 := trackEvent doc n1 m1 w0 in
  let w2 := trackEvent doc n2 m2 (elapse d1 w1) in
  let w3 := trackEvent doc n3 m3 (elapse d2 w2) in
  let w4 := trackEvent doc n4 m4 (elapse d3 w3) in
  let w5 := trackEvent doc n5 m5 (elapse d4 w4) in
  (forall (name : string) (md : list (string * JS.value)) (w : Window),
     armed w ->
     let queue := eventQueue (this w) ++ [tracked doc name md w] in
     let w' := trackEvent doc name md w in
     (CONFIG.batchSize <= length queue ->
        dispatched w' = dispatched w ++ [queue]
        /\ eventQueue (this w') = [] /\ timers w' = [])
     /\ (length queue < CONFIG.batchSize ->
           dispatched w' = dispatched w
           /\ eventQueue (this w') = queue
           /\ timers w' = [(next_timer w, (now w + CONFIG.batchTimeout)%Z)]
           /\ batchTimer (this w') = Some (next_timer w)))
  /\ dispatched w4 = dispatched w0
  /\ dispatched w5
     = dispatched w0
       ++ [[tracked doc n1 m1 w0;
            tracked doc n2 m2 (elapse d1 w1);
            tracked doc n3 m3 (elapse d2 w2);
            tracked doc n4 m4 (elapse d3 w3);
            tracked doc n5 m5 (elapse d4 w4)]]
  /\ eventQueue (this w5) = []
  /\ timers w5 = []
  /\ forall later, dispatched (elapse later w5) = dispatched w5.
Proof.
  intros Hempty Hnone Hd1 Hd2 Hd3 Hd4 Hsum. cbn zeta.
  split; [intros name md w Harmed; apply track_queues_then_flushes_or_rearms, Harmed|].
  pose proof (no_timers_armed w0 Hnone) as A0.
  assert (Hbt : CONFIG.batchTimeout = 3000%Z) by reflexivity.
  assert (Hbs : CONFIG.batchSize = 5) by reflexivity.
  set (s1 := elapse d1 (trackEvent doc n1 m1 w0)).
  set (s2 := elapse d2 (trackEvent doc n2 m2 s1)).
  set (s3 := elapse d3 (trackEvent doc n3 m3 s2)).
  set (s4 := elapse d4 (trackEvent doc n4 m4 s3)).
  assert (L0 : length (eventQueue (this w0)) = 0) by (rewrite Hempty; reflexivity).
  destruct (after_track_then_wait doc n1 m1 d1 w0) as (A1 & Q1 & D1); [assumption|lia|lia|].
  fold s1 in A1, Q1, D1.
  assert (L1 : length (eventQueue (this s1)) = 1)
    by (rewrite Q1, length_app, L0; reflexivity).
  destruct (after_track_then_wait doc n2 m2 d2 s1) as (A2 & Q2 & D2); [assumption|lia|lia|].
  fold s2 in A2, Q2, D2.
  assert (L2 : length (eventQueue (this s2)) = 2)
    by (rewrite Q2, length_app, L1; reflexivity).
  destruct (after_track_then_wait doc n3 m3 d3 s2) as (A3 & Q3 & D3); [assumption|lia|lia|].
  fold s3 in A3, Q3, D3.
  assert (L3 : length (eventQueue (this s3)) = 3)
    by (rewrite Q3, length_app, L2; reflexivity).
  destruct (after_track_then_wait doc n4 m4 d4 s3) as (A4 & Q4 & D4); [assumption|lia|lia|].
  fold s4 in A4, Q4, D4.
  assert (L4 : length (eventQueue (this s4)) = 4)
    by (rewrite Q4, length_app, L3; reflexivity).
  assert (Hq4 : eventQueue (this s4)
                = [tracked doc n1 m1 w0; tracked doc n2 m2 s1;
                   tracked doc n3 m3 s2; tracked doc n4 m4 s3]).
  { rewrite Q4, Q3, Q2, Q1, Hempty. reflexivity. }
  assert (Hd : dispatched s4 = dispatched w0) by congruence.
  assert (H5 : trackEvent doc n5 m5 s4 = _)
    by (unfold trackEvent; apply queueEvent_full; [assumption|lia]).
  fold (tracked doc n5 m5 s4) in H5. rewrite H5.
  cbn [dispatched this eventQueue timers]. rewrite Hq4, Hd.
  split; [|split; [reflexivity|split; [reflexivity|split; [reflexivity|]]]].
  - unfold trackEvent. rewrite queueEvent_below by (try assumption; lia).
    cbn [dispatched]. congruence.
  - intros later. apply elapse_no_timers. reflexivity.
Qed.

(** *** Delivery of one event *)

Lemma fetch_ok_failed (o : outcome) :
  failed o = true -> exists e, fetch_ok o = throw e.
Proof. destruct o; [discriminate| |]; intros _; eexists; reflexivity. Qed.

(** An [ok] response ends the delivery. *)
Lemma sendEvent_ok (network : nat -> outcome) (event : Event) (attempt : nat) :
  network attempt = response_ok ->
  sendEvent network event attempt = ([Fetch event attempt; ConsoleLog], normal tt).
Proof. intros Hok. rewrite sendEvent_equation_1, Hok. reflexivity. Qed.

(** A failed attempt before the last is retried, [attempt] x 1000 ms later. *)
Lemma sendEvent_retry (network : nat -> outcome) (event : Event) (attempt : nat) :
  failed (network attempt) = true -> attempt < CONFIG.retryAttempts ->
  sendEvent network event attempt
  = ([Fetch event attempt; ConsoleError;
      Delay (CONFIG.retryDelay * Z.of_nat attempt)]
       ++ fst (sendEvent network event (attempt + 1)),
     snd (sendEvent network event (attempt + 1))).
Proof.
  intros Hfail Hlt. destruct (fetch_ok_failed _ Hfail) as [e He].
  rewrite (sendEvent_equation_1 network event attempt), He. cbn.
  destruct (lt_dec attempt CONFIG.retryAttempts); [|contradiction]. cbn.
  destruct (sendEvent network event (attempt + 1)); reflexivity.
Qed.

(** A failed last attempt ends the delivery: the event is dropped. *)
Lemma sendEvent_drop (network : nat -> outcome) (event : Event) (attempt : nat) :
  failed (network attempt) = true -> ~ attempt < CONFIG.retryAttempts ->
  sendEvent network event attempt = ([Fetch event attempt; ConsoleError], normal tt).
Proof.
  intros Hfail Hlt. destruct (fetch_ok_failed _ Hfail) as [e He].
  rewrite (sendEvent_equation_1 network event attempt), He. cbn.
  destruct (lt_dec attempt CONFIG.retryAttempts); [contradiction|]. reflexivity.
Qed.

(** C7: when the fetches of attempts 1, 2 and 3 all fail (a response that is
    not ok, or no response), [sendEvent] fetches the same event three times,
    waits 1000 ms before the second attempt and 2000 ms before the third, and
    after the third failure does nothing more: no fourth fetch, no timer, and
    the call completes normally (the failure is only logged). *)
Theorem sendEvent_gives_up_after_three (network : nat -> outcome) (event : Event) :
  failed (network 1) = true ->
  failed (network 2) = true ->
  failed (network 3) = true ->
  sendEvent network event 1
  = ([Fetch event 1; ConsoleError; Delay 1000;
      Fetch event 2; ConsoleError; Delay 2000;
      Fetch event 3; ConsoleError], normal tt).
Proof.
  intros H1 H2 H3.
  rewrite (sendEvent_retry _ _ 1 H1) by (cbv; lia).
  rewrite (sendEvent_retry _ _ 2 H2) by (cbv; lia).
  rewrite (sendEvent_drop _ _ 3 H3) by (cbv; lia).
  reflexivity.
Qed.

End ClientProperties.

(** C5, witness: the five clicks are dispatched as one batch, on the fifth
    click, and an hour later nothing more has been dispatched. *)
Lemma five_tracks_one_batch_witness :
  map (map Client.timestamp) (Client.dispatched five_clicks) = [[0; 10; 30; 60; 100]%Z]
  /\ Client.eventQueue (Client.this five_clicks) = []
  /\ Client.timers five_clicks = []
  /\ Client.dispatched (Client.elapse 3600000 five_clicks) = Client.dispatched five_clicks.
Proof.
  destruct (five_tracks_one_batch example_page "signup" "signup" "signup" "signup"
              "signup" [] [] [] [] [] 10 20 30 40
              (Client.new_FHEAnalytics "fhe_sk_0001" "sess_1" 0))
    as (_ & _ & Hbatch & Hqueue & Htimers & Hlater);
    [reflexivity | reflexivity | lia | lia | lia | lia | lia |].
  unfold five_clicks. cbv zeta.
  split; [rewrite Hbatch; vm_compute; reflexivity|].
  split; [exact Hqueue|]. split; [exact Htimers|]. apply Hlater.
Defined.

(** C5, counterexample: on a page that has just loaded the queue holds the
    page view and the session start.  Five clicks within 100 ms then dispatch
    a batch on the third click, made of those two events and three clicks;
    the last two clicks stay queued behind a timer, and 3000 ms later the
    timer dispatches them as a second batch. *)
Lemma five_tracks_after_load_two_batches :
  map (map Client.eventType) (Client.dispatched five_clicks_after_load)
  = [["pageview"; "session"; "event"; "event"; "event"]]
  /\ map Client.eventType (Client.eventQueue (Client.this five_clicks_after_load))
     = ["event"; "event"]
  /\ map snd (Client.timers five_clicks_after_load) = [3150%Z]
  /\ map (map Client.eventType)
         (Client.dispatched (Client.elapse 3000 five_clicks_after_load))
     = [["pageview"; "session"; "event"; "event"; "event"]; ["event"; "event"]].
Proof. repeat split; vm_compute; reflexivity. Qed.

(** C7, witness: every fetch is rejected (the network is down). *)
Lemma sendEvent_gives_up_after_three_witness :
  Client.sendEvent (fun _ => Client.rejected) example_event 1
  = ([Client.Fetch example_event 1; Client.ConsoleError; Client.Delay 1000;
      Client.Fetch example_event 2; Client.ConsoleError; Client.Delay 2000;
      Client.Fetch example_event 3; Client.ConsoleError], JS.normal tt).
Proof.
  apply (sendEvent_gives_up_after_three (fun _ => Client.rejected) example_event);
    reflexivity.
Defined.

(** * Further properties *)

(** ** The codec, pairwise (server/fhe.ts) *)

Section CodecComposition.
Import JS Fhe.
Context `{host : Host}.

Lemma same_number_strict_equals (x y : float) :
  same_number x y -> isFinite y = true -> strict_equals (Num x) (Num y) = true.
Proof. intros Hsame Hfin. cbn [strict_equals]. apply same_number_eqb; assumption. Qed.

(** X1: decoding what [encryptValue] wrote for a number gives the number
    back when it is finite (a negative zero comes back as 0, which [===]
    does not tell apart), and 0 when it is NaN or infinite; the keys and the
    instant of the encoding play no part. *)
Theorem decrypt_encrypt_round_trip (v : float) (publicKey privateKey : string)
  (t : float) :
  let decoded := decryptValue (encryptValue (Num v) publicKey t) privateKey in
  (isFinite v = true ->
     exists r, decoded = Num r /\ same_number r v /\ strict_equals (Num r) (Num v) = true)
  /\ (isFinite v = false -> decoded = Num 0).
Proof.
  cbn zeta.
  change (decryptValue (encryptValue (Num v) publicKey t) privateKey)
    with (decryptValue (encryptValue (Num v) publicKey t) "").
  rewrite decrypt_encrypt_number. split; intros Hfin.
  - assert (Hsame : same_number (snap v) v)
      by (apply same_number_snap; [left; reflexivity | exact Hfin]).
    exists (snap v). split; [reflexivity|]. split; [exact Hsame|].
    apply same_number_strict_equals; assumption.
  - unfold snap. rewrite Hfin. reflexivity.
Qed.

(** X2: [homomorphicAdd] of the encodings of two numbers whose sum is finite
    decodes to that sum (up to the sign of a zero). *)
Theorem homomorphicAdd_of_numbers (a b : float) (pk : string) (ta tb now : float) :
  isFinite (PrimFloat.add a b) = true ->
  exists r,
    decryptValue
      (homomorphicAdd (encryptValue (Num a) pk ta) (encryptValue (Num b) pk tb) now) ""
    = Num r
    /\ same_number r (PrimFloat.add a b)
    /\ strict_equals (Num r) (Num (PrimFloat.add a b)) = true.
Proof.
  intros Hfin. unfold homomorphicAdd. cbv zeta.
  rewrite !decrypt_encrypt_number, add_numbers, decrypt_number.
  destruct (isFinite_add_inv _ _ Hfin) as [Ha Hb].
  assert (Hsame : same_number (snap (PrimFloat.add (snap a) (snap b))) (PrimFloat.add a b)).
  { apply same_number_snap; [|exact Hfin].
    apply same_number_add; [|exact Hb].
    apply same_number_snap; [left; reflexivity | exact Ha]. }
  eexists. split; [reflexivity|]. split; [exact Hsame|].
  apply same_number_strict_equals; assumption.
Qed.

(** What [decryptValue] returns is 0 or truthy. *)
Lemma decryptValue_or (cipherBlob : Buffer) (privateKey : string) :
  decryptValue cipherBlob privateKey = Num 0
  \/ ToBoolean (decryptValue cipherBlob privateKey) = true.
Proof.
  unfold decryptValue. destruct cipherBlob as [[doc|chars]]; cbn; [|left; reflexivity].
  destruct (Get doc "value") as [v|e]; cbn; [|left; reflexivity].
  unfold or. destruct (ToBoolean v) eqn:Hv; [right; exact Hv | left; reflexivity].
Qed.

(** X3: whatever the blob, [decryptValue] returns without throwing, and what
    it returns is the number 0 or a truthy value: never [undefined], [null],
    [false], the empty string, NaN or a negative zero. *)
Theorem decryptValue_zero_or_truthy (cipherBlob : Buffer) (privateKey : string) :
  let decoded := decryptValue cipherBlob privateKey in
  (decoded = Num 0 \/ ToBoolean decoded = true)
  /\ decoded <> Undefined /\ decoded <> Null /\ decoded <> Bool false
  /\ decoded <> Str ""
  /\ (forall x, decoded = Num x -> isNaN x = false /\ Prim2SF x <> S754_zero true).
Proof.
  cbn zeta. pose proof (decryptValue_or cipherBlob privateKey) as Hor.
  split; [exact Hor|].
  destruct Hor as [H0|Ht].
  - rewrite H0. do 4 (split; [discriminate|]).
    intros x [= <-]. split; [reflexivity | discriminate].
  - do 4 (split; [intros Heq; rewrite Heq in Ht; discriminate Ht|]).
    intros x Hx. rewrite Hx in Ht. cbn in Ht. split.
    + destruct (isNaN x); [|reflexivity]. rewrite orb_true_r in Ht. discriminate.
    + unfold isZero in Ht. intros Hz. rewrite Hz in Ht. discriminate.
Qed.

Lemma add_zero_l (x : float) :
  Prim2SF x <> S754_zero true -> PrimFloat.add 0 x = x.
Proof.
  intros Hx. apply Prim2SF_inj. rewrite add_spec.
  change (Prim2SF 0) with (S754_zero false).
  destruct (Prim2SF x) as [[|]| | |]; try reflexivity. contradiction.
Qed.

Lemma decryptValue_number (cipherBlob : Buffer) (privateKey : string) (x : float) :
  decryptValue cipherBlob privateKey = Num x -> Prim2SF x <> S754_zero true.
Proof.
  intros Hx. destruct (decryptValue_or cipherBlob privateKey) as [H0|Ht].
  - rewrite H0 in Hx. injection Hx. intros <-. discriminate.
  - rewrite Hx in Ht. cbn in Ht. unfold isZero in Ht. intros Hz. rewrite Hz in Ht.
    discriminate.
Qed.

(** X4: on two blobs that decode to numbers, whoever wrote them,
    [homomorphicSum] of the pair and [homomorphicAdd] return the same blob. *)
Theorem homomorphicSum_of_two (cipher1 cipher2 : Buffer) (a b : float) (now : float) :
  decryptValue cipher1 "" = Num a ->
  decryptValue cipher2 "" = Num b ->
  homomorphicSum [cipher1; cipher2] now = homomorphicAdd cipher1 cipher2 now.
Proof.
  intros Ha Hb. unfold homomorphicSum, homomorphicAdd. cbn [fold_left]. cbv zeta.
  rewrite Ha, Hb, !add_numbers, (add_zero_l a (decryptValue_number _ _ _ Ha)).
  reflexivity.
Qed.

Lemma same_number_add_r (a a' v : float) :
  same_number a a' -> same_number (PrimFloat.add a v) (PrimFloat.add a' v).
Proof.
  intros [->|[Ha Ha']]; [left; reflexivity|].
  unfold same_number, isZero in *. rewrite !add_spec.
  destruct (Prim2SF a) as [sa| | |] eqn:Ea; try discriminate.
  destruct (Prim2SF a') as [sa'| | |] eqn:Ea'; try discriminate.
  destruct (Prim2SF v) as [sv|sv| |sv mv ev] eqn:Ev.
  - right. destruct sa, sa', sv; cbn; split; reflexivity.
  - left. apply Prim2SF_inj. rewrite !add_spec, Ea, Ea', Ev. reflexivity.
  - left. apply Prim2SF_inj. rewrite !add_spec, Ea, Ea', Ev. reflexivity.
  - left. apply Prim2SF_inj. rewrite !add_spec, Ea, Ea', Ev. reflexivity.
Qed.

Lemma same_number_add_zero (a : float) : same_number (PrimFloat.add a 0) a.
Proof.
  unfold same_number, isZero. rewrite add_spec.
  change (Prim2SF 0) with (S754_zero false).
  destruct (Prim2SF a) as [sa|sa| |sa ma ea] eqn:Ea.
  - right. destruct sa; cbn; split; reflexivity.
  - left. apply Prim2SF_inj. rewrite add_spec, Ea. reflexivity.
  - left. apply Prim2SF_inj. rewrite add_spec, Ea. reflexivity.
  - left. apply Prim2SF_inj. rewrite add_spec, Ea. reflexivity.
Qed.

Lemma same_number_snap_eq (x y : float) : same_number x y -> snap x = snap y.
Proof.
  intros [->|[Hx Hy]]; [reflexivity|].
  unfold snap. rewrite Hx, Hy, !andb_false_r. reflexivity.
Qed.

(** The running total over blobs that decode to numbers is a number, and
    changing the start by the sign of a zero changes the end no more. *)
Lemma total_same_number (ciphers : list Buffer) (a a' : float) :
  Forall numeric ciphers -> same_number a a' ->
  exists r r',
    fold_left (fun acc cipher => add acc (decryptValue cipher "")) ciphers (Num a) = Num r
    /\ fold_left (fun acc cipher => add acc (decryptValue cipher "")) ciphers (Num a')
       = Num r'
    /\ same_number r r'.
Proof.
  intros Hnum. revert a a'.
  induction Hnum as [|c cs [x Hx] _ IH]; intros a a' Hsame; cbn [fold_left].
  - exists a, a'. repeat split; assumption.
  - rewrite Hx, !add_numbers. apply IH, same_number_add_r, Hsame.
Qed.

(** X5: among blobs that decode to numbers, a blob that decodes to 0 (one
    that is no JSON, or has no [value], or a falsy one) changes nothing
    about what the aggregate decodes to, wherever it stands in the list. *)
Theorem homomorphicSum_skips_zero_blobs (before after : list Buffer) (cipher : Buffer)
  (now : float) :
  decryptValue cipher "" = Num 0 ->
  Forall numeric (before ++ after) ->
  decryptValue (homomorphicSum (before ++ cipher :: after) now) ""
  = decryptValue (homomorphicSum (before ++ after) now) "".
Proof.
  intros Hzero Hnum. apply Forall_app in Hnum as [Hbefore Hafter].
  unfold homomorphicSum. cbv zeta. rewrite !fold_left_app. cbn [fold_left].
  destruct (total_same_number before 0 0 Hbefore (or_introl eq_refl))
    as (r & _ & -> & _ & _).
  rewrite Hzero, add_numbers.
  destruct (total_same_number after (PrimFloat.add r 0) r Hafter (same_number_add_zero r))
    as (s & s' & -> & -> & Hsame).
  rewrite !decrypt_number, (same_number_snap_eq _ _ Hsame). reflexivity.
Qed.

End CodecComposition.

(** X2, witness: 2 and 3. *)
Lemma homomorphicAdd_of_numbers_witness :
  exists r,
    Fhe.decryptValue
      (Fhe.homomorphicAdd (host := example_host)
         (Fhe.encryptValue (JS.Num 2) "pk" 10) (Fhe.encryptValue (JS.Num 3) "pk" 11) 12)
      ""
    = JS.Num r
    /\ same_number r (2 + 3)
    /\ JS.strict_equals (JS.Num r) (JS.Num (2 + 3)) = true.
Proof. apply (homomorphicAdd_of_numbers (host := example_host)). reflexivity. Defined.

(** X4, witness: an encoding of 2 and a blob that is no JSON. *)
Lemma homomorphicSum_of_two_witness :
  Fhe.homomorphicSum (host := example_host)
    [Fhe.encryptValue (JS.Num 2) "pk" 10; JS.Buffer_from (JS.other_text "junk")] 12
  = Fhe.homomorphicAdd (host := example_host)
      (Fhe.encryptValue (JS.Num 2) "pk" 10) (JS.Buffer_from (JS.other_text "junk")) 12.
Proof.
  apply (homomorphicSum_of_two (host := example_host) _ _ 2 0); reflexivity.
Defined.

(** X5, witness: a blob that is no JSON between the encodings of 2 and 3. *)
Lemma homomorphicSum_skips_zero_blobs_witness :
  Fhe.decryptValue
    (Fhe.homomorphicSum (host := example_host)
       ([Fhe.encryptValue (JS.Num 2) "pk" 10]
        ++ JS.Buffer_from (JS.other_text "junk") :: [Fhe.encryptValue (JS.Num 3) "pk" 11])
       12) ""
  = Fhe.decryptValue
      (Fhe.homomorphicSum (host := example_host)
         ([Fhe.encryptValue (JS.Num 2) "pk" 10] ++ [Fhe.encryptValue (JS.Num 3) "pk" 11])
         12) "".
Proof.
  apply (homomorphicSum_skips_zero_blobs (host := example_host)); [reflexivity|].
  repeat constructor; eexists; reflexivity.
Defined.

(** ** Origin tokens (server/fhe.ts and the serverless handler) *)

Section TokenProperties.
Import JS Fhe.

Lemma a_f0_9_hex_digit (n : N) : a_f0_9 (hex_digit n) = true.
Proof.
  destruct n as [|p]; [reflexivity|].
  do 4 (destruct p as [p|p|]; try reflexivity).
Qed.

Lemma toString_hex_length (bytes : list byte) :
  String.length (toString_hex bytes) = 2 * length bytes.
Proof. induction bytes as [|b bs IH]; cbn [toString_hex String.length length]; lia. Qed.

Lemma toString_hex_class (bytes : list byte) :
  forallb a_f0_9 (list_ascii_of_string (toString_hex bytes)) = true.
Proof.
  induction bytes as [|b bs IH]; [reflexivity|].
  cbn [toString_hex list_ascii_of_string forallb].
  rewrite !a_f0_9_hex_digit, IH. reflexivity.
Qed.

(** X6: a token [generateOriginToken] makes passes [isValidOriginToken]
    exactly when it was made from 24 random bytes, as the code makes it. *)
Theorem generateOriginToken_valid (randomBytes : list byte) :
  isValidOriginToken (generateOriginToken randomBytes) = Nat.eqb (length randomBytes) 24.
Proof.
  unfold isValidOriginToken, generateOriginToken.
  change (after_prefix "fhe_sk_" ("fhe_sk_" ++ toString_hex randomBytes))
    with (Some (toString_hex randomBytes)).
  cbv beta iota.
  rewrite toString_hex_length, toString_hex_class, andb_true_r.
  destruct (Nat.eqb_spec (2 * length randomBytes) 48), (Nat.eqb_spec (length randomBytes) 24);
    (reflexivity || lia).
Qed.

Lemma hex_digit_not_s (n : N) : Ascii.eqb "s" (hex_digit n) = false.
Proof.
  destruct n as [|p]; [reflexivity|].
  do 4 (destruct p as [p|p|]; try reflexivity).
Qed.

(** The first character of a padded byte is a digit. *)
Lemma padStart_byte (n : N) :
  exists c tail,
    Api.padStart 2 "0" (Api.Number_toString_16 n) = String c tail
    /\ Ascii.eqb "s" c = false.
Proof.
  unfold Api.Number_toString_16. destruct (n <? 16)%N.
  - exists "0"%char. eexists. split; reflexivity.
  - eexists _, _. split; [reflexivity|]. apply hex_digit_not_s.
Qed.

(** X7: no token the serverless handler's [randomToken] makes passes
    [isValidOriginToken], whatever the random bytes. *)
Theorem randomToken_never_valid (bytes : list byte) :
  isValidOriginToken (Api.randomToken bytes) = false.
Proof.
  unfold isValidOriginToken, Api.randomToken.
  destruct bytes as [|b rest]; [reflexivity|]. cbn [map].
  destruct (padStart_byte (Byte.to_N b)) as (c & tail & -> & Hc).
  assert (Hjoin : exists tail', join "" (String c tail :: map (fun b => Api.padStart 2 "0"
                    (Api.Number_toString_16 (Byte.to_N b))) rest) = String c tail').
  { destruct (map _ rest); cbn [join]; eexists; reflexivity. }
  destruct Hjoin as [tail' ->].
  change (after_prefix "fhe_sk_" ("fhe_" ++ String c tail'))
    with (if Ascii.eqb "s" c then after_prefix "k_" tail' else None).
  rewrite Hc. reflexivity.
Qed.

End TokenProperties.

(** ** The queries of the store (server/storage.ts) *)

Section StoreQueries.
Import JS Storage.

#[local] Existing Instances desc_total desc_trans.

(** The first row of [ORDER BY key DESC] has the largest key. *)
Lemma head_orderBy_desc {A} (key : A -> Z) (rows : list A) :
  match head (orderBy_desc key rows) with
  | Some x => x ∈ rows /\ forall y, y ∈ rows -> (key y <= key x)%Z
  | None => rows = []
  end.
Proof.
  unfold orderBy_desc.
  pose proof (merge_sort_Permutation (desc key) rows) as Hperm.
  pose proof (StronglySorted_merge_sort (desc key) rows) as Hsorted.
  destruct (merge_sort (desc key) rows) as [|x sorted]; cbn.
  - symmetry in Hperm. apply Permutation_nil_r in Hperm. exact Hperm.
  - split; [rewrite <- Hperm; left|].
    intros y Hy. rewrite <- Hperm in Hy.
    apply StronglySorted_inv in Hsorted as [_ Hall].
    apply elem_of_cons in Hy as [->|Hy]; [lia|].
    rewrite Forall_forall in Hall. exact (Hall y Hy).
Qed.

Lemma head_take_1 {A} (l : list A) : head (take 1 l) = head l.
Proof. destruct l; reflexivity. Qed.

(** What [getActiveKey] selects, in terms of the table. *)
Lemma getActiveKey_head (d : Database) (oid : string) :
  match getActiveKey d oid with
  | Some k =>
      k ∈ fheKeys d /\ key_originId k = oid /\ isActive k = "true"
      /\ forall k', k' ∈ fheKeys d -> key_originId k' = oid -> isActive k' = "true" ->
                    (key_createdAt k' <= key_createdAt k)%Z
  | None =>
      forall k, k ∈ fheKeys d -> key_originId k = oid -> isActive k <> "true"
  end.
Proof.
  unfold getActiveKey. rewrite head_take_1.
  pose proof (head_orderBy_desc key_createdAt
                (filter (fun k => key_originId k = oid /\ isActive k = "true") (fheKeys d)))
    as Hhead.
  destruct (head _) as [k|].
  - destruct Hhead as [Hin Hmax]. apply list_elem_of_filter in Hin as [[Ho Ha] Hin].
    repeat split; try assumption.
    intros k' Hin' Ho' Ha'. apply Hmax. apply list_elem_of_filter. tauto.
  - intros k Hin Ho Ha.
    assert (Hk : k ∈ filter (fun k => key_originId k = oid /\ isActive k = "true")
                            (fheKeys d)) by (apply list_elem_of_filter; tauto).
    rewrite Hhead in Hk. by apply elem_of_nil in Hk.
Qed.

Lemma elem_of_getKeysByOrigin (d : Database) (oid : string) (k : FheKey) :
  k ∈ getKeysByOrigin d oid <-> k ∈ fheKeys d /\ key_originId k = oid.
Proof.
  unfold getKeysByOrigin, orderBy_desc.
  rewrite merge_sort_Permutation, list_elem_of_filter. tauto.
Qed.

(** X8: [getKeysByOrigin] lists exactly the keys of the origin, each row
    once (the list is a permutation of the rows of the table that belong to
    the origin), newest first, and [getActiveKey] returns one of them that
    is active and no older than any other active one; it returns nothing
    exactly when none of them is active. *)
Theorem getActiveKey_newest (d : Database) (oid : string) :
  StronglySorted (desc key_createdAt) (getKeysByOrigin d oid)
  /\ getKeysByOrigin d oid ≡ₚ filter (fun k => key_originId k = oid) (fheKeys d)
  /\ (forall k, k ∈ getKeysByOrigin d oid <-> k ∈ fheKeys d /\ key_originId k = oid)
  /\ match getActiveKey d oid with
     | Some k =>
         k ∈ getKeysByOrigin d oid /\ isActive k = "true"
         /\ forall k', k' ∈ getKeysByOrigin d oid -> isActive k' = "true" ->
                       (key_createdAt k' <= key_createdAt k)%Z
     | None => forall k, k ∈ getKeysByOrigin d oid -> isActive k <> "true"
     end.
Proof.
  split; [apply StronglySorted_merge_sort; apply _|].
  split; [apply merge_sort_Permutation|].
  split; [intros k; apply elem_of_getKeysByOrigin|].
  pose proof (getActiveKey_head d oid) as Hhead.
  destruct (getActiveKey d oid) as [k|].
  - destruct Hhead as (Hin & Ho & Ha & Hmax).
    split; [apply elem_of_getKeysByOrigin; tauto|]. split; [exact Ha|].
    intros k' Hin' Ha'. apply elem_of_getKeysByOrigin in Hin' as [Hin' Ho'].
    apply Hmax; assumption.
  - intros k Hin. apply elem_of_getKeysByOrigin in Hin as [Hin Ho].
    apply Hhead; assumption.
Qed.

(** X9: a key stored with [createFheKey] that is active and newer than every
    active key the origin had is the one [getActiveKey] returns from then
    on; the active key of every other origin stays what it was. *)
Theorem createFheKey_rotates (d : Database) (key : FheKey) :
  isActive key = "true" ->
  (forall k, k ∈ fheKeys d -> key_originId k = key_originId key -> isActive k = "true" ->
             (key_createdAt k < key_createdAt key)%Z) ->
  getActiveKey (fst (createFheKey d key)) (key_originId key) = Some key
  /\ forall oid, oid <> key_originId key ->
       getActiveKey (fst (createFheKey d key)) oid = getActiveKey d oid.
Proof.
  intros Hactive Holder. split.
  - pose proof (getActiveKey_head (fst (createFheKey d key)) (key_originId key)) as Hhead.
    cbn [createFheKey fst fheKeys] in Hhead.
    destruct (getActiveKey _ _) as [k|].
    + destruct Hhead as (Hin & Ho & Ha & Hmax).
      apply elem_of_app in Hin as [Hin|Hin].
      * specialize (Holder k Hin Ho Ha).
        specialize (Hmax key). rewrite elem_of_app, list_elem_of_singleton in Hmax.
        specialize (Hmax (or_intror eq_refl) eq_refl Hactive). lia.
      * apply list_elem_of_singleton in Hin as ->. reflexivity.
    + exfalso. apply (Hhead key); [|reflexivity|exact Hactive].
      apply elem_of_app. right. apply list_elem_of_singleton. reflexivity.
  - intros oid Hne. unfold getActiveKey, createFheKey. cbn [fst fheKeys].
    rewrite filter_app, filter_cons_False, filter_nil, app_nil_r; [reflexivity|].
    intros [Ho _]. apply Hne. symmetry. exact Ho.
Qed.

(** X10: [getOriginByToken] returns the first origin of the table that has
    the token, and nothing exactly when no origin has it. *)
Theorem getOriginByToken_first (d : Database) (t : string) :
  match getOriginByToken d t with
  | Some o =>
      token o = t
      /\ exists before after,
           origins d = before ++ o :: after
           /\ Forall (fun o' => token o' <> t) before
  | None => Forall (fun o => token o <> t) (origins d)
  end.
Proof.
  unfold getOriginByToken. induction (origins d) as [|o os IH].
  - constructor.
  - rewrite filter_cons. destruct (decide (token o = t)) as [Heq|Hne]; cbn.
    + split; [exact Heq|]. exists [], os. split; [reflexivity | constructor].
    + destruct (head (filter _ os)) as [o'|].
      * destruct IH as (Ht & before & after & -> & Hbefore).
        split; [exact Ht|]. exists (o :: before), after.
        split; [reflexivity | constructor; assumption].
      * constructor; assumption.
Qed.

Lemma events_of_create (d : Database) (event : EncryptedEvent) (oid : string) :
  events_of (fst (createEncryptedEvent d event)) oid
  = events_of d oid ++ (if decide (originId event = oid) then [event] else []).
Proof.
  unfold events_of, createEncryptedEvent. cbn [fst encryptedEvents].
  rewrite filter_app. f_equal.
Qed.

(** X11: storing an event changes the window of no other origin, whatever
    the limit, and touches neither the origins nor the keys. *)
Theorem createEncryptedEvent_other_origin (d : Database) (event : EncryptedEvent)
  (oid : string) (limit : option nat) :
  originId event <> oid ->
  getEventsByOrigin (fst (createEncryptedEvent d event)) oid limit
  = getEventsByOrigin d oid limit
  /\ origins (fst (createEncryptedEvent d event)) = origins d
  /\ fheKeys (fst (createEncryptedEvent d event)) = fheKeys d.
Proof.
  intros Hne. split; [|split; reflexivity].
  unfold getEventsByOrigin. fold (events_of (fst (createEncryptedEvent d event)) oid).
  fold (events_of d oid). rewrite events_of_create.
  rewrite decide_False by exact Hne. rewrite app_nil_r. reflexivity.
Qed.

(** X12: while the origin has fewer events than the limit, an event stored
    for it is in the window read next, which is the window read before with
    that one event more. *)
Theorem createEncryptedEvent_then_get (d : Database) (event : EncryptedEvent)
  (limit : option nat) :
  length (events_of d (originId event)) < default 100 limit ->
  event ∈ getEventsByOrigin (fst (createEncryptedEvent d event)) (originId event) limit
  /\ getEventsByOrigin (fst (createEncryptedEvent d event)) (originId event) limit
     ≡ₚ event :: getEventsByOrigin d (originId event) limit.
Proof.
  intros Hroom.
  unfold getEventsByOrigin, orderBy_desc.
  fold (events_of (fst (createEncryptedEvent d event)) (originId event)).
  fold (events_of d (originId event)). rewrite events_of_create.
  rewrite decide_True by reflexivity. cbv zeta.
  set (n := default 100 limit) in *.
  assert (Hperm : merge_sort (desc timestamp) (events_of d (originId event) ++ [event])
                  ≡ₚ event :: merge_sort (desc timestamp) (events_of d (originId event))).
  { rewrite !merge_sort_Permutation. rewrite Permutation_app_comm. reflexivity. }
  rewrite !take_ge.
  - split; [rewrite Hperm; left | exact Hperm].
  - rewrite merge_sort_Permutation. lia.
  - rewrite merge_sort_Permutation, length_app. cbn. lia.
Qed.

(** X13: [getEventsByDateRange] returns, newest first and without a limit,
    exactly the events of the origin whose timestamp lies in the range, both
    ends included; a range whose end is before its start selects nothing. *)
Theorem getEventsByDateRange_range (d : Database) (oid : string) (startDate endDate : Z) :
  let selected := getEventsByDateRange d oid startDate endDate in
  StronglySorted (desc timestamp) selected
  /\ (forall e, e ∈ selected <->
                e ∈ encryptedEvents d /\ originId e = oid
                /\ (startDate <= timestamp e <= endDate)%Z)
  /\ selected ≡ₚ filter (fun e => (startDate <= timestamp e <= endDate)%Z) (events_of d oid)
  /\ ((endDate < startDate)%Z -> selected = []).
Proof.
  cbn zeta. unfold getEventsByDateRange, orderBy_desc.
  set (rows := filter _ (encryptedEvents d)).
  assert (Hrows : forall e, e ∈ rows <->
                    e ∈ encryptedEvents d /\ originId e = oid
                    /\ (startDate <= timestamp e <= endDate)%Z).
  { intros e. subst rows. rewrite list_elem_of_filter. tauto. }
  split; [apply StronglySorted_merge_sort; apply _|].
  split; [intros e; rewrite merge_sort_Permutation; apply Hrows|].
  split.
  - rewrite merge_sort_Permutation. subst rows. unfold events_of.
    rewrite list_filter_filter. apply reflexive_eq, filter_ext_in. intros e _. tauto.
  - intros Hinv. destruct rows as [|e rows'] eqn:E; [reflexivity|].
    assert (He : e ∈ e :: rows') by left. apply Hrows in He. lia.
Qed.

End StoreQueries.

(** X9, witness: the example origin is given a second key, made at instant 5. *)
Lemma createFheKey_rotates_witness :
  Storage.getActiveKey (fst (Storage.createFheKey (Routes.db example_server) rotated_key))
    "o1"
  = Some rotated_key.
Proof.
  apply (createFheKey_rotates (Routes.db example_server) rotated_key); [reflexivity|].
  intros k Hin _ _. apply list_elem_of_singleton in Hin as ->. reflexivity.
Defined.

(** X11, witness: an event of origin [o2] is stored beside three of [o1]. *)
Lemma createEncryptedEvent_other_origin_witness :
  Storage.getEventsByOrigin
    (fst (Storage.createEncryptedEvent (busy_database 3) foreign_event)) "o1" None
  = Storage.getEventsByOrigin (busy_database 3) "o1" None.
Proof.
  apply (createEncryptedEvent_other_origin (busy_database 3) foreign_event "o1" None).
  discriminate.
Defined.

(** X12, witness: a fourth event for the example origin. *)
Lemma createEncryptedEvent_then_get_witness :
  stored_event "session" 1 7 0
  ∈ Storage.getEventsByOrigin
      (fst (Storage.createEncryptedEvent (busy_database 3) (stored_event "session" 1 7 0)))
      "o1" None.
Proof.
  apply (createEncryptedEvent_then_get (busy_database 3) (stored_event "session" 1 7 0) None).
  vm_compute. lia.
Defined.

(** ** The collect route, its outcomes (server/routes.ts) *)

Section CollectOutcomes.
Import JS Fhe Storage Routes.
Context `{host : Host}.

(** X14: the collect handler answers 400, 401, 500 or 202, and nothing else.
    It answers 400, from its [catch], when the schema rejects the body or
    the database rejects one of the three queries; the error is then logged
    and nothing else changes.  It answers 401 when the lookup finds no
    origin with the token and 500 when the origin has no active key, and
    then changes nothing at all.  Otherwise it answers 202, having stored
    one event of that origin and scheduled one recomputation, and logged
    nothing.  No request changes the origins, the keys or the registered
    streams, and none writes to a stream before it is answered. *)
Theorem collect_outcomes (accepts : query -> bool) (req_body : value) (now : float)
  (st : Server) :
  let st' := fst (collect accepts req_body now st) in
  let status := fst (snd (collect accepts req_body now st)) in
  sseClients st' = sseClients st
  /\ origins (db st') = origins (db st)
  /\ fheKeys (db st') = fheKeys (db st)
  /\ chunks_to_any (log st') = chunks_to_any (log st)
  /\ ((status = 400
       /\ db st' = db st /\ immediates st' = immediates st
       /\ log st' = log st ++ [ConsoleError "[API] Collect error:"]
       /\ ((exists e, schema_parse req_body = throw e)
           \/ (exists body, schema_parse req_body = normal body
                 /\ accepts (select_origin_by_token (body_originToken body)) = false)
           \/ (exists body origin, schema_parse req_body = normal body
                 /\ getOriginByToken (db st) (body_originToken body) = Some origin
                 /\ accepts (select_active_key (origin_id origin)) = false)
           \/ (exists body origin key, schema_parse req_body = normal body
                 /\ getOriginByToken (db st) (body_originToken body) = Some origin
                 /\ getActiveKey (db st) (origin_id origin) = Some key
                 /\ accepts (insert_encrypted_event (collected_event body origin key now))
                    = false)))
      \/ (status = 401 /\ st' = st
          /\ exists body, schema_parse req_body = normal body
               /\ accepts (select_origin_by_token (body_originToken body)) = true
               /\ getOriginByToken (db st) (body_originToken body) = None)
      \/ (status = 500 /\ st' = st
          /\ exists body origin, schema_parse req_body = normal body
               /\ accepts (select_origin_by_token (body_originToken body)) = true
               /\ getOriginByToken (db st) (body_originToken body) = Some origin
               /\ accepts (select_active_key (origin_id origin)) = true
               /\ getActiveKey (db st) (origin_id origin) = None)
      \/ (status = 202 /\ log st' = log st
          /\ exists body origin key, schema_parse req_body = normal body
               /\ accepts (select_origin_by_token (body_originToken body)) = true
               /\ getOriginByToken (db st) (body_originToken body) = Some origin
               /\ accepts (select_active_key (origin_id origin)) = true
               /\ getActiveKey (db st) (origin_id origin) = Some key
               /\ accepts (insert_encrypted_event (collected_event body origin key now))
                  = true
               /\ encryptedEvents (db st')
                  = encryptedEvents (db st) ++ [collected_event body origin key now]
               /\ immediates st' = immediates st ++ [recompute origin])).
Proof.
  cbn zeta.
  assert (Hcaught :
            collect accepts req_body now st = caught st ->
            sseClients (fst (collect accepts req_body now st)) = sseClients st
            /\ origins (db (fst (collect accepts req_body now st))) = origins (db st)
            /\ fheKeys (db (fst (collect accepts req_body now st))) = fheKeys (db st)
            /\ chunks_to_any (log (fst (collect accepts req_body now st)))
               = chunks_to_any (log st)
            /\ fst (snd (collect accepts req_body now st)) = 400
            /\ db (fst (collect accepts req_body now st)) = db st
            /\ immediates (fst (collect accepts req_body now st)) = immediates st
            /\ log (fst (collect accepts req_body now st))
               = log st ++ [ConsoleError "[API] Collect error:"]).
  { intros ->. cbn. repeat split.
    unfold chunks_to_any. rewrite omap_app. cbn. apply app_nil_r. }
  destruct (schema_parse req_body) as [body|e] eqn:Hparse.
  2:{ destruct (Hcaught (collect_invalid_body accepts _ _ now st Hparse))
        as (H1 & H2 & H3 & H4 & H5 & H6 & H7 & H8).
      do 4 (split; [assumption|]). left. do 4 (split; [assumption|]).
      left. exists e. reflexivity. }
  destruct (accepts (select_origin_by_token (body_originToken body))) eqn:Hacc1.
  2:{ destruct (Hcaught (collect_lookup_rejected accepts _ _ now st Hparse Hacc1))
        as (H1 & H2 & H3 & H4 & H5 & H6 & H7 & H8).
      do 4 (split; [assumption|]). left. do 4 (split; [assumption|]).
      right. left. exists body. split; [reflexivity | assumption]. }
  destruct (getOriginByToken (db st) (body_originToken body)) as [origin|] eqn:Horigin.
  2:{ unfold collect, await. rewrite Hparse. cbn. rewrite Hacc1. cbn. rewrite Horigin. cbn.
      do 4 (split; [reflexivity|]). right. left.
      split; [reflexivity|]. split; [reflexivity|]. exists body.
      repeat split; assumption. }
  destruct (accepts (select_active_key (origin_id origin))) eqn:Hacc2.
  2:{ assert (Hc : collect accepts req_body now st = caught st).
      { unfold collect, await. rewrite Hparse. cbn. rewrite Hacc1. cbn.
        rewrite Horigin, Hacc2. reflexivity. }
      destruct (Hcaught Hc) as (H1 & H2 & H3 & H4 & H5 & H6 & H7 & H8).
      do 4 (split; [assumption|]). left. do 4 (split; [assumption|]).
      right. right. left. exists body, origin. repeat split; assumption. }
  destruct (getActiveKey (db st) (origin_id origin)) as [key|] eqn:Hkey.
  2:{ unfold collect, await. rewrite Hparse. cbn. rewrite Hacc1. cbn.
      rewrite Horigin, Hacc2. cbn. rewrite Hkey. cbn.
      do 4 (split; [reflexivity|]). right. right. left.
      split; [reflexivity|]. split; [reflexivity|]. exists body, origin.
      repeat split; assumption. }
  destruct (accepts (insert_encrypted_event (collected_event body origin key now)))
    eqn:Hacc3.
  - rewrite (collect_accepts _ _ _ _ _ _ _ Hparse Hacc1 Horigin Hacc2 Hkey Hacc3). cbn.
    do 4 (split; [reflexivity|]). right. right. right.
    split; [reflexivity|]. split; [reflexivity|]. exists body, origin, key.
    repeat split; assumption.
  - destruct (Hcaught (collect_insert_rejected accepts _ _ now st origin key
                         Hparse Hacc1 Horigin Hacc2 Hkey Hacc3))
      as (H1 & H2 & H3 & H4 & H5 & H6 & H7 & H8).
    do 4 (split; [assumption|]). left. do 4 (split; [assumption|]).
    right. right. right. exists body, origin, key. repeat split; assumption.
Qed.

End CollectOutcomes.

(** ** Opening and closing a stream (server/routes.ts) *)

Section StreamProperties.
Import JS Storage Routes.

Lemma NoDup_Set_add (x : Response) (set : list Response) :
  NoDup set -> NoDup (Set_add x set).
Proof.
  intros Hnd. unfold Set_add. destruct (decide (x ∈ set)) as [Hin|Hnotin]; [exact Hnd|].
  apply NoDup_app. split; [exact Hnd|]. split.
  - intros y Hy Hy'. apply list_elem_of_singleton in Hy' as ->. contradiction.
  - apply NoDup_singleton.
Qed.

Lemma elem_of_Set_add (x y : Response) (set : list Response) :
  y ∈ Set_add x set <-> y = x \/ y ∈ set.
Proof.
  unfold Set_add. destruct (decide (x ∈ set)) as [Hin|Hnotin].
  - split; [tauto|]. intros [->|H]; assumption.
  - rewrite elem_of_app, list_elem_of_singleton. tauto.
Qed.

(** X15: opening a stream registers it in the Set of its origin, once
    (a Set that holds it already is left as it is, and a Set without
    repetition stays so), leaves the Sets of the other origins alone, and
    writes the connected notice to the stream, and nothing else. *)
Theorem subscribe_registers (originId : string) (res : Response) (st : Server) :
  let before := default [] (sseClients st !! originId) in
  let st' := subscribe originId res st in
  (exists clients,
     sseClients st' !! originId = Some clients
     /\ (forall c, c ∈ clients <-> c = res \/ c ∈ before)
     /\ (NoDup before -> NoDup clients)
     /\ (res ∈ before -> clients = before))
  /\ (forall o, o <> originId -> sseClients st' !! o = sseClients st !! o)
  /\ log st' = log st ++ [Written res (connected_notice originId)]
  /\ db st' = db st
  /\ immediates st' = immediates st.
Proof.
  cbn zeta. unfold subscribe. cbn.
  split; [|repeat split].
  - eexists. split; [apply lookup_insert_eq|].
    split; [intros c; apply elem_of_Set_add|].
    split; [apply NoDup_Set_add|].
    intros Hin. unfold Set_add. rewrite decide_True by exact Hin. reflexivity.
  - intros o Hne. apply lookup_insert_ne. congruence.
Qed.

Lemma Set_delete_absent (x : Response) (set : list Response) :
  x ∉ set -> Set_delete x set = set.
Proof.
  intros Hnotin. unfold Set_delete. apply filter_all.
  intros y Hy ->. contradiction.
Qed.

Lemma Set_delete_add (x : Response) (set : list Response) :
  x ∉ set -> Set_delete x (Set_add x set) = set.
Proof.
  intros Hnotin. unfold Set_add. rewrite decide_False by exact Hnotin.
  unfold Set_delete. rewrite filter_app. fold (Set_delete x set).
  rewrite Set_delete_absent by exact Hnotin.
  rewrite filter_cons_False by (intros Hne; apply Hne; reflexivity).
  apply app_nil_r.
Qed.

(** X16: closing a stream takes it out of the Set of its origin and keeps
    the others in their order; a Set left empty is removed from the map, so
    the map never holds an empty Set for the origin afterwards.  The Sets of
    the other origins, the tables and the log are left alone. *)
Theorem unsubscribe_removes (originId : string) (res : Response) (st : Server) :
  let st' := unsubscribe originId res st in
  (forall clients, sseClients st' !! originId = Some clients ->
     clients <> [] /\ (res ∉ clients)
     /\ exists before, sseClients st !! originId = Some before
          /\ clients = filter (fun c => c <> res) before)
  /\ (sseClients st' !! originId = None ->
      forall before c, sseClients st !! originId = Some before -> c ∈ before -> c = res)
  /\ (forall o, o <> originId -> sseClients st' !! o = sseClients st !! o)
  /\ log st' = log st /\ db st' = db st /\ immediates st' = immediates st.
Proof.
  cbn zeta. unfold unsubscribe.
  destruct (sseClients st !! originId) as [before|] eqn:Hreg.
  - destruct (decide (length (Set_delete res before) = 0)) as [Hlen|Hlen]; cbn.
    + split; [intros clients; rewrite lookup_delete_eq; discriminate|].
      split.
      * intros _ before' c [= <-] Hc.
        destruct (decide (c = res)) as [Heq|Hne]; [exact Heq|].
        apply nil_length_inv in Hlen.
        assert (Hin : c ∈ Set_delete res before)
          by (apply list_elem_of_filter; split; assumption).
        rewrite Hlen in Hin. by apply elem_of_nil in Hin.
      * split; [|repeat split]. intros o Hne. apply lookup_delete_ne. congruence.
    + split.
      * intros clients. rewrite lookup_insert_eq. intros [= <-].
        split; [intros Hnil; apply Hlen; rewrite Hnil; reflexivity|].
        split; [|exists before; split; reflexivity].
        unfold Set_delete. rewrite list_elem_of_filter. tauto.
      * split; [rewrite lookup_insert_eq; discriminate|].
        split; [|repeat split]. intros o Hne. apply lookup_insert_ne. congruence.
  - split; [intros clients; rewrite Hreg; discriminate|].
    split; [intros _ before c; discriminate|]. repeat split.
Qed.

(** X17: a stream that is opened and then closed leaves the map of streams
    as it found it, provided the stream was not registered before and the
    map held no empty Set for the origin. *)
Theorem subscribe_then_unsubscribe (originId : string) (res : Response) (st : Server) :
  res ∉ default [] (sseClients st !! originId) ->
  sseClients st !! originId <> Some [] ->
  sseClients (unsubscribe originId res (subscribe originId res st)) = sseClients st.
Proof.
  intros Hfresh Hpruned. unfold unsubscribe, subscribe. cbn.
  rewrite lookup_insert_eq, Set_delete_add by exact Hfresh.
  destruct (sseClients st !! originId) as [before|] eqn:Hreg; cbn.
  - destruct (decide (length before = 0)) as [Hlen|Hlen]; cbn.
    + apply nil_length_inv in Hlen. subst before. contradiction.
    + rewrite insert_insert_eq. apply insert_id. exact Hreg.
  - rewrite delete_insert_eq. apply delete_id. exact Hreg.
Qed.

End StreamProperties.

(** ** From a collected event to the streams (server/routes.ts) *)

Section PushProperties.
Import JS Fhe Storage Routes.
Context `{host : Host}.

Lemma broadcast_log (writable : Response -> bool) (originId : string) (metrics : value)
  (st : Server) (clients : list Response) :
  sseClients st !! originId = Some clients ->
  exists st',
    broadcastMetricsUpdate writable originId metrics st = normal st'
    /\ log st' = log st ++ Stringified metrics
                           :: delivery writable (JSON_stringify metrics) clients
    /\ db st' = db st
    /\ immediates st' = immediates st.
Proof.
  intros Hreg. unfold broadcastMetricsUpdate. rewrite Hreg.
  destruct (send_updates writable originId (JSON_stringify metrics) clients
              (emit (Stringified metrics) st)) as (Hdb & Him & Hlog & _).
  eexists. split; [reflexivity|]. cbv zeta in Hdb, Him, Hlog.
  rewrite Hdb, Him, Hlog. cbn. rewrite <- app_assoc. repeat split.
Qed.

(** The [catch] of [decryptValue] runs for text that is no JSON and for the
    document [null]. *)
Lemma decryptValue_console_unreadable (cipherBlob : Buffer) (privateKey : string) :
  decryptValue_console cipherBlob privateKey
  = if unreadable cipherBlob then ["Decryption error:"] else [].
Proof. destruct cipherBlob as [[doc|chars]]; [destruct doc|]; reflexivity. Qed.

(** What an aggregate, or the blob that stands for none, decodes to is read
    without an error. *)
Lemma homomorphicSum_readable (ciphers : list Buffer) (now : float) :
  decryptValue_console (homomorphicSum ciphers now) "" = [].
Proof. reflexivity. Qed.

Lemma zero_cipher_readable : decryptValue_console zero_cipher "" = [].
Proof. reflexivity. Qed.

Lemma homomorphicSum_console_events (events : list EncryptedEvent) :
  map ConsoleError (homomorphicSum_console (map cipherBlob events))
  = repeat (ConsoleError "Decryption error:")
           (length (filter (fun e => unreadable (cipherBlob e) = true) events)).
Proof.
  induction events as [|e events IH]; [reflexivity|].
  unfold homomorphicSum_console in *. cbn [map flat_map].
  rewrite map_app, IH, decryptValue_console_unreadable, filter_cons.
  destruct (unreadable (cipherBlob e)).
  - rewrite decide_True by reflexivity. reflexivity.
  - rewrite decide_False by discriminate. reflexivity.
Qed.

Lemma emit_console (messages : list string) (st : Server) :
  fold_left (fun st message => emit (ConsoleError message) st) messages st
  = {| db := db st; sseClients := sseClients st; immediates := immediates st;
       log := log st ++ map ConsoleError messages |}.
Proof.
  revert st. induction messages as [|m ms IH]; intros st; cbn [fold_left map].
  - rewrite app_nil_r. destruct st; reflexivity.
  - rewrite IH. cbn. rewrite <- app_assoc. reflexivity.
Qed.


(** The recomputation, step by step: the decryption errors are logged, then
    the metrics are broadcast. *)
Lemma run_recompute_snapshot (origin : Origin) (now : float)
  (writable : Response -> bool) (st : Server) (m : Metrics) :
  get_metrics (origin_id origin) now st = (200, metrics_body m) ->
  run_recompute origin now writable st
  = try_catch
      (broadcastMetricsUpdate writable (origin_id origin) (snapshot m now)
         {| db := db st; sseClients := sseClients st; immediates := immediates st;
            log := log st
                   ++ decryption_errors
                        (getEventsByOrigin (db st) (origin_id origin) (Some 1000)) |})
      (fun error => emit (ConsoleError "[SSE] Failed to broadcast update:") st).
Proof.
  unfold get_metrics, run_recompute. intros [= <-]. cbv zeta.
  set (events := getEventsByOrigin (db st) (origin_id origin) (Some 1000)).
  rewrite emit_console. unfold decryption_errors.
  rewrite !filter_app, !length_app, !repeat_app, <- !homomorphicSum_console_events.
  rewrite !map_app.
  assert (Hlast : forall evs,
            map ConsoleError
              (decryptValue_console
                 (if (0 <? length evs)%nat
                  then homomorphicSum (map cipherBlob evs) now else zero_cipher) "") = []).
  { intros evs. destruct (0 <? length evs)%nat; reflexivity. }
  rewrite !Hlast, !app_nil_r. reflexivity.
Qed.

Lemma run_recompute_log (origin : Origin) (now : float)
  (writable : Response -> bool) (st : Server) (m : Metrics) (clients : list Response) :
  get_metrics (origin_id origin) now st = (200, metrics_body m) ->
  sseClients st !! origin_id origin = Some clients ->
  log (run_recompute origin now writable st)
  = log st
    ++ decryption_errors (getEventsByOrigin (db st) (origin_id origin) (Some 1000))
    ++ Stringified (snapshot m now)
       :: delivery writable (JSON_stringify (snapshot m now)) clients
  /\ db (run_recompute origin now writable st) = db st
  /\ immediates (run_recompute origin now writable st) = immediates st.
Proof.
  intros Hm Hreg. rewrite (run_recompute_snapshot _ _ _ _ _ Hm).
  set (st1 := {| db := db st; sseClients := sseClients st; immediates := immediates st;
                 log := _ |}).
  destruct (broadcast_log writable (origin_id origin) (snapshot m now) st1 clients Hreg)
    as (st' & -> & Hlog & Hdb & Him).
  cbn [try_catch]. rewrite Hlog, Hdb, Him. subst st1. cbn. rewrite <- app_assoc.
  repeat split.
Qed.




Lemma getEventsByOrigin_single (d : Database) (oid : string) (e : EncryptedEvent)
  (n : nat) :
  events_of d oid = [e] -> getEventsByOrigin d oid (Some (S n)) = [e].
Proof.
  intros Hone. unfold getEventsByOrigin. fold (events_of d oid). rewrite Hone.
  cbn. rewrite take_nil. reflexivity.
Qed.

(** X20: a first page view, end to end.  When the origin has no event yet
    and a page view with no [value], or the value 1, is collected, and the
    database carries out the three queries of the request and the read of
    the recomputation, the request is answered 202 before anything is
    written to a stream, and the recomputation it scheduled then sends every
    registered stream that takes the write one update, with pageviews 1 and
    visitors, sessions, avgSession and conversions 0, and logs nothing
    else. *)
Theorem first_pageview_is_pushed (accepts : query -> bool) (req_body : value)
  (body : CollectBody) (t now : float) (writable : Response -> bool) (st : Server)
  (origin : Origin) (key : FheKey) (clients : list Response) :
  schema_parse req_body = normal body ->
  body_eventType body = "pageview" ->
  body_value body = Undefined \/ body_value body = Num 1 ->
  accepts (select_origin_by_token (body_originToken body)) = true ->
  getOriginByToken (db st) (body_originToken body) = Some origin ->
  accepts (select_active_key (origin_id origin)) = true ->
  getActiveKey (db st) (origin_id origin) = Some key ->
  accepts (insert_encrypted_event (collected_event body origin key t)) = true ->
  accepts (select_events_by_origin (origin_id origin) 1000) = true ->
  events_of (db st) (origin_id origin) = [] ->
  sseClients st !! origin_id origin = Some clients ->
  NoDup clients ->
  let update :=
    Obj [("metrics",
          Obj [("visitors", Num 0); ("pageviews", Num 1); ("sessions", Num 0);
               ("avgSession", Num 0); ("conversions", Num 0);
               ("encrypted", Bool true)]);
         ("timestamp", Num now)] in
  let st1 := fst (collect accepts req_body t st) in
  let st2 := recompute_callback accepts origin now writable st1 in
  snd (collect accepts req_body t st) = (202, accepted_body)
  /\ immediates st1 = immediates st ++ [recompute origin]
  /\ log st1 = log st
  /\ log st2
     = log st ++ Stringified update :: delivery writable (JSON_stringify update) clients
  /\ forall c, c ∈ clients -> writable c = true ->
       chunks_to c (Stringified update :: delivery writable (JSON_stringify update) clients)
       = [sse_data (JSON_stringify update)].
Proof.
  intros Hparse Hty Hval Hacc1 Horigin Hacc2 Hkey Hacc3 Hacc4 Hnone Hreg Hnd. cbn zeta.
  rewrite (collect_accepts _ _ _ _ _ _ _ Hparse Hacc1 Horigin Hacc2 Hkey Hacc3).
  cbn [fst snd]. unfold recompute_callback, await. rewrite Hacc4. cbn [bind try_catch].
  split; [reflexivity|]. split; [reflexivity|]. split; [reflexivity|].
  set (st1 := setImmediate _ _).
  assert (Hev : exists e, events_of (db st1) (origin_id origin) = [e]
                   /\ eventType e = "pageview"
                   /\ cipherBlob e = encryptValue (Num 1) (publicKey key) t).
  { eexists. split; [|split].
    - subst st1. unfold events_of. cbn [db setImmediate set_db encryptedEvents].
      rewrite filter_app. fold (events_of (db st) (origin_id origin)). rewrite Hnone.
      rewrite filter_cons_True by reflexivity. reflexivity.
    - exact Hty.
    - cbn [cipherBlob]. destruct Hval as [-> | ->]; reflexivity. }
  destruct Hev as (e & Hev & Hety & Hblob).
  pose proof (getEventsByOrigin_single _ _ e 999 Hev) as Hwindow.
  assert (Hm : get_metrics (origin_id origin) now st1
               = (200, metrics_body {| visitors := Num 0; pageviews := Num 1;
                                       sessions := Num 0; avgSession := Num 0;
                                       bounceRate := Num 0; conversions := Num 0 |})).
  { unfold get_metrics. rewrite Hwindow.
    cbv zeta. unfold ofType.
    rewrite (filter_cons_True (fun e => eventType e = "pageview")) by exact Hety.
    rewrite !filter_cons_False by (rewrite Hety; discriminate).
    rewrite !filter_nil. cbn [length Nat.ltb Nat.leb map]. rewrite Hblob.
    unfold homomorphicSum, encryptValue. cbn [fold_left]. cbv zeta.
    rewrite decrypt_number, add_numbers, decrypt_number. reflexivity. }
  assert (Herrors : decryption_errors
                      (getEventsByOrigin (db st1) (origin_id origin) (Some 1000)) = []).
  { rewrite Hwindow. unfold decryption_errors, ofType.
    rewrite (filter_cons_True (fun e => eventType e = "pageview")) by exact Hety.
    rewrite !filter_cons_False by (rewrite Hety; discriminate).
    rewrite !filter_nil, !app_nil_r.
    rewrite filter_cons_False; [reflexivity|]. rewrite Hblob. discriminate. }
  destruct (run_recompute_log origin now writable st1 _ clients Hm Hreg) as (Hlog & _).
  rewrite Herrors in Hlog. split; [exact Hlog|].
  intros c Hin Hw. cbn. apply chunks_to_present; assumption.
Qed.

End PushProperties.

(** X17, witness: stream 7 is opened and closed beside streams 1, 2 and 3. *)
Lemma subscribe_then_unsubscribe_witness :
  Routes.sseClients (Routes.unsubscribe "o1" 7 (Routes.subscribe "o1" 7 example_server))
  = Routes.sseClients example_server.
Proof.
  apply (subscribe_then_unsubscribe "o1" 7 example_server).
  - apply (bool_decide_unpack _). vm_compute. exact I.
  - discriminate.
Defined.



(** X20, witness: the example server collects its first page view while
    streams 1, 2 and 3 are open. *)
Lemma first_pageview_is_pushed_witness :
  chunks_to 3
    (Routes.log
       (Routes.recompute_callback (host := example_host) postgres example_origin 5
          (fun _ => true)
          (fst (Routes.collect (host := example_host) postgres
                  (example_body "fhe_sk_0001" "pageview" JS.Undefined) 4 example_server))))
  = [Routes.sse_data
       (JS.JSON_stringify
          (JS.Obj [("metrics",
                    JS.Obj [("visitors", JS.Num 0); ("pageviews", JS.Num 1);
                            ("sessions", JS.Num 0); ("avgSession", JS.Num 0);
                            ("conversions", JS.Num 0); ("encrypted", JS.Bool true)]);
                   ("timestamp", JS.Num 5)]))].
Proof.
  destruct (first_pageview_is_pushed (host := example_host) postgres
              (example_body "fhe_sk_0001" "pageview" JS.Undefined) pageview_body
              4 5 (fun _ => true) example_server example_origin example_key [1; 2; 3])
    as (_ & _ & _ & Hlog & Hchunks).
  - reflexivity.
  - reflexivity.
  - left. reflexivity.
  - reflexivity.
  - reflexivity.
  - reflexivity.
  - reflexivity.
  - reflexivity.
  - reflexivity.
  - reflexivity.
  - reflexivity.
  - apply (bool_decide_unpack _). vm_compute. exact I.
  - rewrite Hlog. cbn [Routes.log example_server app].
    apply Hchunks; [apply (bool_decide_unpack _); vm_compute; exact I | reflexivity].
Defined.

(** ** The batching agent over whole runs (public/fhe-analytics.js) *)

Section BatchingInvariant.
Import JS Client.

Lemma between_calls_armed (w : Window) : between_calls w -> armed w.
Proof.
  intros [[[_ Hnone]|(_ & id & due & Hts & Hbt & _)] _].
  - apply no_timers_armed, Hnone.
  - intros t Ht. rewrite Hts in Ht. apply list_elem_of_singleton in Ht as ->.
    exact Hbt.
Qed.

Lemma between_calls_length (w : Window) :
  between_calls w -> length (eventQueue (this w)) < CONFIG.batchSize.
Proof.
  intros [[[-> _]|[Hlen _]] _]; [cbv; lia | lia].
Qed.

Lemma queueEvent_between_calls (doc : Page) (ty : string) (v : JS.value)
  (md : list (string * JS.value)) (w : Window) :
  between_calls w ->
  between_calls (queueEvent doc ty v md w)
  /\ concat (dispatched (queueEvent doc ty v md w))
     ++ eventQueue (this (queueEvent doc ty v md w))
     = concat (dispatched w) ++ eventQueue (this w) ++ [queued doc ty v md w].
Proof.
  intros Hinv. pose proof (between_calls_armed w Hinv) as Harmed.
  pose proof (between_calls_length w Hinv) as Hlen.
  destruct Hinv as [_ Hbatches].
  destruct (le_lt_dec CONFIG.batchSize (length (eventQueue (this w)) + 1)) as [Hge|Hlt].
  - rewrite queueEvent_full by assumption. unfold between_calls.
    cbn [dispatched this eventQueue timers].
    split; [split|].
    + left. split; reflexivity.
    + apply Forall_app. split; [exact Hbatches|].
      constructor; [|constructor]. cbv beta. rewrite length_app. cbn. lia.
    + rewrite concat_app. cbn. rewrite !app_nil_r. reflexivity.
  - rewrite queueEvent_below by assumption. unfold between_calls.
    cbn [dispatched this eventQueue timers batchTimer now].
    split; [split|reflexivity].
    + right. rewrite length_app. cbn [length]. split; [lia|].
      eexists _, _. split; [reflexivity|]. split; [reflexivity|].
      unfold CONFIG.batchTimeout. lia.
    + exact Hbatches.
Qed.

Lemma flush_between_calls (w : Window) :
  between_calls w ->
  between_calls (flush w)
  /\ eventQueue (this (flush w)) = []
  /\ timers (flush w) = []
  /\ now (flush w) = now w
  /\ concat (dispatched (flush w)) = concat (dispatched w) ++ eventQueue (this w).
Proof.
  intros [[[Hq Hts]|(Hlen & id & due & Hts & Hbt & Hdue)] Hbatches]; unfold flush.
  - rewrite Hq. cbn. rewrite app_nil_r. repeat split; try assumption.
    left. split; assumption.
  - destruct (decide (length (eventQueue (this w)) = 0)) as [H0|_]; [lia|].
    cbn. rewrite Hbt. cbn. rewrite Hts. cbn.
    rewrite decide_False by (intros Hne; apply Hne; reflexivity). cbn.
    repeat split.
    + left. split; reflexivity.
    + apply Forall_app. split; [exact Hbatches|]. constructor; [cbv beta; lia|constructor].
    + rewrite concat_app. cbn. rewrite app_nil_r. reflexivity.
Qed.

Lemma elapse_between_calls (ms : Z) (w : Window) :
  (0 <= ms)%Z ->
  between_calls w ->
  between_calls (elapse ms w)
  /\ concat (dispatched (elapse ms w)) ++ eventQueue (this (elapse ms w))
     = concat (dispatched w) ++ eventQueue (this w)
  /\ ((CONFIG.batchTimeout <= ms)%Z ->
      eventQueue (this (elapse ms w)) = [] /\ timers (elapse ms w) = []).
Proof.
  intros Hms Hinv.
  destruct Hinv as [[[Hq Hts]|(Hlen & id & due & Hts & Hbt & Hdue)] Hbatches].
  - rewrite elapse_idle by (rewrite Hts; intros t Ht; by apply elem_of_nil in Ht).
    cbn. repeat split; try assumption. left. split; assumption.
  - destruct (Z_lt_le_dec (now w + ms) due) as [Hlate|Hfire].
    + rewrite elapse_idle
        by (rewrite Hts; intros t Ht; apply list_elem_of_singleton in Ht as ->; exact Hlate).
      unfold between_calls. cbn [this now timers dispatched].
      split; [split; [|exact Hbatches]|split; [reflexivity|]].
      * right. split; [exact Hlen|]. exists id, due.
        split; [exact Hts|]. split; [exact Hbt|]. unfold CONFIG.batchTimeout in *. lia.
      * intros Hlong. unfold CONFIG.batchTimeout in *. lia.
    + destruct w as [[tok queue sid bt] t ts nt batches].
      cbn [this eventQueue batchTimer timers now dispatched] in *. subst ts bt.
      unfold elapse, between_calls.
      cbn [this eventQueue batchTimer timers now dispatched length run_timers next_due
           snd fst].
      destruct (Z.leb_spec due (t + ms)) as [_|Hlt]; [|lia].
      rewrite filter_cons_False by (intros Hne; apply Hne; reflexivity).
      rewrite filter_nil. unfold flush.
      cbn [this eventQueue batchTimer timers now dispatched].
      destruct (decide (length queue = 0)) as [H0|_]; [lia|].
      cbn.
      split; [split|split; [|intros _; split; reflexivity]].
      * left. split; reflexivity.
      * apply Forall_app. split; [exact Hbatches|]. constructor; [cbv beta; lia|constructor].
      * rewrite concat_app. cbn. rewrite !app_nil_r. reflexivity.
Qed.

Lemma step_between_calls (doc : Page) (c : call) (w : Window) :
  match c with Wait ms => (0 <= ms)%Z | _ => True end ->
  between_calls w ->
  between_calls (step doc c w)
  /\ concat (dispatched (step doc c w)) ++ eventQueue (this (step doc c w))
     = concat (dispatched w) ++ eventQueue (this w) ++ event_of doc c w.
Proof.
  intros Hc Hinv. destruct c as [| |name md|v md| |ms]; cbn [step event_of].
  - apply queueEvent_between_calls, Hinv.
  - apply queueEvent_between_calls, Hinv.
  - apply queueEvent_between_calls, Hinv.
  - apply queueEvent_between_calls, Hinv.
  - destruct (flush_between_calls w Hinv) as (Hinv' & Hq & _ & _ & Hd).
    split; [exact Hinv'|]. rewrite Hq, Hd, !app_nil_r. reflexivity.
  - destruct (elapse_between_calls ms w Hc Hinv) as (Hinv' & Hd & _).
    split; [exact Hinv'|]. rewrite Hd, app_nil_r. reflexivity.
Qed.

Lemma run_between_calls (doc : Page) (calls : list call) (w : Window) :
  well_timed calls ->
  between_calls w ->
  between_calls (run doc calls w)
  /\ concat (dispatched (run doc calls w)) ++ eventQueue (this (run doc calls w))
     = concat (dispatched w) ++ eventQueue (this w) ++ events_queued doc calls w.
Proof.
  intros Hcalls. revert w. induction Hcalls as [|c calls Hc _ IH]; intros w Hinv.
  - cbn. rewrite app_nil_r. split; [exact Hinv | reflexivity].
  - destruct (step_between_calls doc c w Hc Hinv) as [Hinv' Hd].
    destruct (IH _ Hinv') as [Hinv'' Hd'].
    change (run doc (c :: calls) w) with (run doc calls (step doc c w)).
    split; [exact Hinv''|]. rewrite Hd', app_assoc, Hd. cbn [events_queued].
    rewrite <- !app_assoc. reflexivity.
Qed.

Lemma between_calls_new (originToken sessionId : string) (t0 : Z) :
  between_calls (new_FHEAnalytics originToken sessionId t0).
Proof. split; [left; split; reflexivity | constructor]. Qed.

(** X21: after any run of calls of the public API, page hides and waits,
    started on a new agent, fewer than 5 events are queued; a timer is
    pending exactly when the queue is not empty, it is the only one, it is
    the one [batchTimer] names, and it is due within 3000 ms; and no batch
    dispatched so far is empty or holds more than 5 events. *)
Theorem queue_stays_below_batchSize (doc : Page) (calls : list call)
  (originToken sessionId : string) (t0 : Z) :
  well_timed calls ->
  let w := run doc calls (new_FHEAnalytics originToken sessionId t0) in
  length (eventQueue (this w)) < CONFIG.batchSize
  /\ length (timers w) <= 1
  /\ (eventQueue (this w) = [] <-> timers w = [])
  /\ (forall id due, (id, due) ∈ timers w ->
        batchTimer (this w) = Some id /\ (now w < due <= now w + CONFIG.batchTimeout)%Z)
  /\ Forall (fun batch => 0 < length batch <= CONFIG.batchSize) (dispatched w).
Proof.
  intros Hcalls. cbn zeta.
  destruct (run_between_calls doc calls _ Hcalls
              (between_calls_new originToken sessionId t0)) as [Hinv _].
  pose proof (between_calls_length _ Hinv) as Hlen.
  destruct Hinv as [[[Hq Hts]|(Hpos & id & due & Hts & Hbt & Hdue)] Hbatches].
  - rewrite Hq, Hts. cbn [length].
    split; [cbv; lia|]. split; [lia|]. split; [tauto|]. split; [|exact Hbatches].
    intros id due Hin. by apply elem_of_nil in Hin.
  - rewrite Hts. cbn [length].
    split; [exact Hlen|]. split; [lia|].
    split; [split; [intros Hq; rewrite Hq in Hpos; cbn in Hpos; lia | discriminate]|].
    split; [|exact Hbatches].
    intros id' due' Hin. apply list_elem_of_singleton in Hin. injection Hin as -> ->.
    split; [exact Hbt | exact Hdue].
Qed.

(** X22: batching loses, repeats and reorders nothing: after any run, the
    batches dispatched so far, one after the other, followed by the queue,
    are the events the calls queued, each once and in the order of the
    calls. *)
Theorem no_event_lost_or_repeated (doc : Page) (calls : list call)
  (originToken sessionId : string) (t0 : Z) :
  well_timed calls ->
  let w := run doc calls (new_FHEAnalytics originToken sessionId t0) in
  concat (dispatched w) ++ eventQueue (this w)
  = events_queued doc calls (new_FHEAnalytics originToken sessionId t0).
Proof.
  intros Hcalls. cbn zeta.
  destruct (run_between_calls doc calls _ Hcalls
              (between_calls_new originToken sessionId t0)) as [_ Hd].
  exact Hd.
Qed.

(** X23: after any run, once 3000 ms or more pass without a call, or once
    the page is hidden or unloaded, the queue is empty, no timer is pending,
    and every event the calls queued has been dispatched. *)
Theorem everything_dispatched_when_idle_or_hidden (doc : Page) (calls : list call)
  (originToken sessionId : string) (t0 : Z) (ms : Z) :
  well_timed calls ->
  (CONFIG.batchTimeout <= ms)%Z ->
  let w0 := new_FHEAnalytics originToken sessionId t0 in
  let idle := elapse ms (run doc calls w0) in
  let hidden := flush (run doc calls w0) in
  (eventQueue (this idle) = [] /\ timers idle = []
   /\ concat (dispatched idle) = events_queued doc calls w0)
  /\ (eventQueue (this hidden) = [] /\ timers hidden = []
      /\ concat (dispatched hidden) = events_queued doc calls w0).
Proof.
  intros Hcalls Hms. cbn zeta.
  destruct (run_between_calls doc calls _ Hcalls
              (between_calls_new originToken sessionId t0)) as [Hinv Hd].
  cbn [new_FHEAnalytics dispatched this eventQueue concat app] in Hd.
  split.
  - destruct (elapse_between_calls ms _ ltac:(unfold CONFIG.batchTimeout in Hms; lia) Hinv)
      as (_ & Hd' & Hlong).
    destruct (Hlong Hms) as [Hq Hts]. rewrite Hq, app_nil_r in Hd'.
    repeat split; [exact Hq | exact Hts | congruence].
  - destruct (flush_between_calls _ Hinv) as (_ & Hq & Hts & _ & Hd').
    repeat split; [exact Hq | exact Hts | congruence].
Qed.


Lemma lookup_assign_eq (k : string) (v : JS.value) (ps : list (string * JS.value)) :
  lookup_property k (assign k v ps) = v.
Proof.
  induction ps as [|[k' v'] ps IH]; cbn.
  - rewrite String.eqb_refl. reflexivity.
  - destruct (String.eqb k k') eqn:E; cbn; rewrite ?String.eqb_refl, ?E; [reflexivity|exact IH].
Qed.

Lemma lookup_assign_ne (k k' : string) (v : JS.value) (ps : list (string * JS.value)) :
  k <> k' -> lookup_property k (assign k' v ps) = lookup_property k ps.
Proof.
  intros Hne. apply String.eqb_neq in Hne.
  induction ps as [|[k'' v''] ps IH]; cbn.
  - rewrite Hne. reflexivity.
  - destruct (String.eqb k' k'') eqn:E; cbn.
    + apply String.eqb_eq in E. subst k''. rewrite Hne. reflexivity.
    + destruct (String.eqb k k''); [reflexivity | exact IH].
Qed.

Lemma queued_stamped (doc : Page) (ty : string) (v : JS.value)
  (md : list (string * JS.value)) (w : Window) :
  stamped doc (this_originToken (this w)) (sessionId (this w)) (queued doc ty v md w).
Proof.
  unfold stamped, queued. cbn [originToken page metadata].
  split; [reflexivity|]. split; [reflexivity|].
  repeat (rewrite ?lookup_assign_eq; rewrite ?lookup_assign_ne by discriminate).
  repeat split; reflexivity.
Qed.

Lemma flush_identity (w : Window) :
  this_originToken (this (flush w)) = this_originToken (this w)
  /\ sessionId (this (flush w)) = sessionId (this w).
Proof.
  unfold flush. destruct (decide _); [split; reflexivity|].
  cbn. destruct (batchTimer (this w)); split; reflexivity.
Qed.

Lemma run_timers_identity (rounds : nat) (deadline : Z) (w : Window) :
  this_originToken (this (run_timers rounds deadline w)) = this_originToken (this w)
  /\ sessionId (this (run_timers rounds deadline w)) = sessionId (this w).
Proof.
  revert w. induction rounds as [|rounds IH]; intros w; cbn [run_timers].
  - split; reflexivity.
  - destruct (next_due deadline (timers w)) as [[id due]|]; [|split; reflexivity].
    set (w1 := {| this := this w; now := Z.max (now w) due;
                  timers := filter (fun t => fst t <> id) (timers w);
                  next_timer := next_timer w;
                  dispatched := dispatched w |}).
    destruct (IH (flush w1)) as [-> ->]. destruct (flush_identity w1) as [-> ->].
    split; reflexivity.
Qed.

Lemma queueEvent_identity (doc : Page) (ty : string) (v : JS.value)
  (md : list (string * JS.value)) (w : Window) :
  this_originToken (this (queueEvent doc ty v md w)) = this_originToken (this w)
  /\ sessionId (this (queueEvent doc ty v md w)) = sessionId (this w).
Proof.
  unfold queueEvent. cbn -[Nat.leb CONFIG.batchSize flush].
  destruct (batchTimer (this w)); cbn -[Nat.leb CONFIG.batchSize flush];
    destruct (Nat.leb _ _);
    try (split; reflexivity);
    match goal with |- context [flush ?x] => destruct (flush_identity x) as [-> ->] end;
    split; reflexivity.
Qed.

Lemma step_identity (doc : Page) (c : call) (w : Window) :
  this_originToken (this (step doc c w)) = this_originToken (this w)
  /\ sessionId (this (step doc c w)) = sessionId (this w).
Proof.
  destruct c; cbn [step]; try apply queueEvent_identity; try apply flush_identity.
  unfold elapse. cbn [this]. apply run_timers_identity.
Qed.

Lemma events_queued_stamped (doc : Page) (calls : list call) (w : Window) :
  Forall (stamped doc (this_originToken (this w)) (sessionId (this w)))
         (events_queued doc calls w).
Proof.
  revert w. induction calls as [|c calls IH]; intros w; cbn [events_queued].
  - constructor.
  - apply Forall_app. split.
    + destruct c; cbn [event_of]; repeat constructor; apply queued_stamped.
    + specialize (IH (step doc c w)).
      destruct (step_identity doc c w) as [Ht Hs]. rewrite Ht, Hs in IH. exact IH.
Qed.

(** X24: every event dispatched carries the token and the session id the
    agent was made with, the path of the page, and the referrer, user agent
    and screen size the browser reports: the metadata a caller passes cannot
    replace them. *)
Theorem dispatched_events_are_stamped (doc : Page) (calls : list call)
  (originToken sessionId : string) (t0 : Z) :
  well_timed calls ->
  Forall (Forall (stamped doc originToken sessionId))
         (dispatched (run doc calls (new_FHEAnalytics originToken sessionId t0))).
Proof.
  intros Hcalls.
  destruct (run_between_calls doc calls _ Hcalls
              (between_calls_new originToken sessionId t0)) as [_ Hd].
  cbn [new_FHEAnalytics dispatched this eventQueue concat app] in Hd.
  pose proof (events_queued_stamped doc calls (new_FHEAnalytics originToken sessionId t0))
    as Hall.
  rewrite <- Hd in Hall. apply Forall_app in Hall as [Hall _].
  cbn [new_FHEAnalytics this this_originToken Client.sessionId] in Hall.
  apply Forall_forall. intros batch Hbatch. apply Forall_forall. intros e He.
  rewrite Forall_forall in Hall. apply Hall.
  apply list_elem_of_In, in_concat. exists batch.
  split; apply list_elem_of_In; assumption.
Qed.

End BatchingInvariant.

(** ** Delivery, whatever the network does (public/fhe-analytics.js) *)

Section DeliveryBound.
Import JS Client.

Lemma failed_false (o : outcome) : failed o = false -> o = response_ok.
Proof. destruct o; [reflexivity | discriminate | discriminate]. Qed.

(** X25: whatever the network does, a delivery fetches the same event at
    most 3 times, attempts 1, 2, ... in order, stops at the first response
    that is ok, waits 1000 ms times the number of the failed attempt before
    the next one, and completes normally; 'Event sent' is logged exactly
    when the last fetch got an ok response. *)
Theorem sendEvent_at_most_three_fetches (network : nat -> outcome) (event : Event) :
  let actions := fst (sendEvent network event 1) in
  snd (sendEvent network event 1) = normal tt
  /\ Forall (fun a => match a with Fetch e _ => e = event | _ => True end) actions
  /\ exists k,
       1 <= k <= CONFIG.retryAttempts
       /\ fetches actions = seq 1 k
       /\ delays actions = map (fun j => (CONFIG.retryDelay * Z.of_nat j)%Z) (seq 1 (k - 1))
       /\ (forall j, 1 <= j < k -> failed (network j) = true)
       /\ (k < CONFIG.retryAttempts -> network k = response_ok)
       /\ (In ConsoleLog actions <-> network k = response_ok).
Proof.
  cbn zeta.
  destruct (failed (network 1)) eqn:H1.
  2:{ apply failed_false in H1. rewrite (sendEvent_ok _ _ 1 H1). cbn.
      split; [reflexivity|]. split; [repeat constructor|].
      exists 1. split; [cbv; lia|]. split; [reflexivity|]. split; [reflexivity|].
      split; [intros j Hj; lia|]. split; [intros _; exact H1|].
      split; [intros _; exact H1 | intros _; right; left; reflexivity]. }
  rewrite (sendEvent_retry _ _ 1 H1) by (cbv; lia). cbn [Nat.add].
  destruct (failed (network 2)) eqn:H2.
  2:{ apply failed_false in H2. rewrite (sendEvent_ok _ _ 2 H2). cbn.
      split; [reflexivity|]. split; [repeat constructor|].
      exists 2. split; [cbv; lia|]. split; [reflexivity|]. split; [reflexivity|].
      split; [intros j Hj; assert (j = 1) as -> by lia; exact H1|].
      split; [intros _; exact H2|].
      split; [intros _; exact H2 | intros _; do 4 right; left; reflexivity]. }
  rewrite (sendEvent_retry _ _ 2 H2) by (cbv; lia). cbn [Nat.add].
  assert (Hfailed : forall j, 1 <= j < 3 -> failed (network j) = true)
    by (intros j Hj; assert (j = 1 \/ j = 2) as [-> | ->] by lia; assumption).
  destruct (failed (network 3)) eqn:H3.
  - rewrite (sendEvent_drop _ _ 3 H3) by (cbv; lia). cbn.
    split; [reflexivity|]. split; [repeat constructor|].
    exists 3. split; [cbv; lia|]. split; [reflexivity|]. split; [reflexivity|].
    split; [exact Hfailed|]. split; [intros Hlt; cbv in Hlt; lia|].
    split.
    + intros Hin. exfalso.
      repeat (destruct Hin as [Hin|Hin]; [discriminate Hin|]). exact Hin.
    + intros Hok. rewrite Hok in H3. discriminate.
  - apply failed_false in H3. rewrite (sendEvent_ok _ _ 3 H3). cbn.
    split; [reflexivity|]. split; [repeat constructor|].
    exists 3. split; [cbv; lia|]. split; [reflexivity|]. split; [reflexivity|].
    split; [exact Hfailed|]. split; [intros _; exact H3|].
    split; [intros _; exact H3 | intros _; do 7 right; left; reflexivity].
Qed.

End DeliveryBound.

(** The example visit has no negative wait. *)
Lemma example_visit_well_timed : well_timed example_visit.
Proof. unfold well_timed, example_visit. repeat constructor; discriminate. Defined.

(** X21, witness: after the example visit two events wait behind one timer,
    and one batch of five has been dispatched. *)
Lemma queue_stays_below_batchSize_witness :
  let w := Client.run example_page example_visit
             (Client.new_FHEAnalytics "fhe_sk_0001" "sess_1" 0) in
  length (Client.eventQueue (Client.this w)) < Client.CONFIG.batchSize
  /\ length (Client.timers w) <= 1
  /\ (Client.eventQueue (Client.this w) = [] <-> Client.timers w = [])
  /\ (forall id due, (id, due) ∈ Client.timers w ->
        Client.batchTimer (Client.this w) = Some id
        /\ (Client.now w < due <= Client.now w + Client.CONFIG.batchTimeout)%Z)
  /\ Forall (fun batch => 0 < length batch <= Client.CONFIG.batchSize)
            (Client.dispatched w).
Proof.
  apply (queue_stays_below_batchSize example_page example_visit "fhe_sk_0001" "sess_1" 0).
  exact example_visit_well_timed.
Defined.

(** X22, witness: the example visit. *)
Lemma no_event_lost_or_repeated_witness :
  let w := Client.run example_page example_visit
             (Client.new_FHEAnalytics "fhe_sk_0001" "sess_1" 0) in
  concat (Client.dispatched w) ++ Client.eventQueue (Client.this w)
  = events_queued example_page example_visit
      (Client.new_FHEAnalytics "fhe_sk_0001" "sess_1" 0).
Proof.
  apply (no_event_lost_or_repeated example_page example_visit "fhe_sk_0001" "sess_1" 0).
  exact example_visit_well_timed.
Defined.

(** X23, witness: the example visit, then 3000 ms without a call. *)
Lemma everything_dispatched_when_idle_or_hidden_witness :
  map Client.eventType
      (concat (Client.dispatched
                 (Client.elapse 3000
                    (Client.run example_page example_visit
                       (Client.new_FHEAnalytics "fhe_sk_0001" "sess_1" 0)))))
  = ["pageview"; "session"; "conversion"; "event"; "event"; "event"; "event"].
Proof.
  destruct (everything_dispatched_when_idle_or_hidden example_page example_visit
              "fhe_sk_0001" "sess_1" 0 3000 example_visit_well_timed)
    as [(_ & _ & Hall) _]; [unfold Client.CONFIG.batchTimeout; lia|].
  rewrite Hall. reflexivity.
Defined.

(** X24, witness: in the example visit the caller passes a session id of its
    own with the conversion; the events dispatched carry the agent's. *)
Lemma dispatched_events_are_stamped_witness :
  Forall (Forall (stamped example_page "fhe_sk_0001" "sess_1"))
         (Client.dispatched
            (Client.run example_page example_visit
               (Client.new_FHEAnalytics "fhe_sk_0001" "sess_1" 0))).
Proof.
  apply (dispatched_events_are_stamped example_page example_visit "fhe_sk_0001" "sess_1" 0).
  exact example_visit_well_timed.
Defined.
